(** * Adaptive signal controller: a shallow embedding of
      [adaptive_signal_controller.py] and the properties of its timing plans.

    Modelling conventions.
    - Python [int] is [Z].
    - Python [float] is read twice.  The first reading is exact rational
      arithmetic ([Q]), without rounding, infinities or NaN; it carries the
      properties that hold whatever the floats are rounded to: the integer
      bookkeeping of greens, streaks and orders, signs and monotonicity.
      The second reading, module [B64], is IEEE 754 binary64 as the
      Standard Library specifies it ([SpecFloat], precision 53, rounding to
      nearest, ties to even), with the exceptions Python raises when it
      converts between [int] and [float]; it carries the properties about
      the values the controller stores and about the calls that return.
    - In the first reading a statement that can raise is a computation in
      the [option] monad, [None] standing for the raised exception.  In
      [B64] a result is [Ok] or [Raise] with the exception, and
      [compute_plan] gives the state as the call leaves it, also when it
      raises.
    - The approach identifiers ["N"], ["E"], ["S"], ["W"] form the closed type
      [Approach]; a dictionary built by a comprehension over [APPROACHES] is a
      total function on [Approach], iterated in the order of [APPROACHES].
    - The snapshot is the caller's dictionary, a finite map keyed by strings;
      the dictionaries of green seconds are finite maps keyed by [Approach];
      a dictionary whose iteration order is observed ([scores] in
      [_normalize_split]) is the list of its items in insertion order. *)

From Stdlib Require Import ZArith QArith Qround Lia Lqa SpecFloat.
From stdpp Require Import gmap strings list fin_maps functions sorting.

Local Open Scope Z_scope.

(** ** Configuration *)

Inductive Approach := North | East | South | West.

Definition approach_name (a : Approach) : string :=
  match a with
  | North => "N" | East => "E" | South => "S" | West => "W"
  end.

Definition APPROACHES : list Approach := [North; East; South; West].

#[global] Instance Approach_eq_dec : EqDecision Approach.
Proof. solve_decision. Defined.

Definition approach_code (a : Approach) : nat :=
  match a with
  | North => 0 | East => 1 | South => 2 | West => 3
  end%nat.

Definition approach_of_code (n : nat) : Approach :=
  match n with
  | 0 => North | 1 => East | 2 => South | _ => West
  end%nat.

#[global] Instance Approach_countable : Countable Approach.
Proof.
  refine (inj_countable' approach_code approach_of_code _).
  intros a; destruct a; reflexivity.
Defined.

Definition WEIGHTS_car : Q := 1.
Definition WEIGHTS_motorbike : Q := 1 # 2.
Definition WEIGHTS_truck : Q := 5 # 2.
Definition WEIGHTS_bus : Q := 2.

Definition ALPHA_EMA : Q := 1 # 2.
Definition CYCLE_MIN : Z := 60.
Definition CYCLE_MAX : Z := 120.
Definition GREEN_MIN : Z := 8.
Definition GREEN_MAX : Z := 60.
Definition YELLOW : Z := 3.
Definition ALL_RED : Z := 1.
Definition FAIRNESS_MAX_SKIP : Z := 3.
Definition PREEMPT_MIN_GREEN : Z := 12.
Definition PREEMPT_MAX_GREEN : Z := 25.

(** ** Data classes *)

Record Counts := mkCounts {
  car : Z;
  motorbike : Z;
  truck : Z;
  bus : Z;
  emergency : bool
}.

(** [Counts()] with every field at its default. *)
Definition Counts_default : Counts := mkCounts 0 0 0 0 false.

Record ApproachState := mkApproachState {
  ema_score : Q;
  skip_streak : Z
}.

Record Plan := mkPlan {
  phase_order : list Approach;
  green_times : gmap Approach Z;
  cycle_time : Z;
  reason : string
}.

(** [self.state]: one entry per configured approach, created by [__init__]
    and never added to or removed from. *)
Definition State : Type := Approach -> ApproachState.

Definition init_state : State := fun _ => mkApproachState 0 0.

(** ** Python built-ins on numbers and lists *)

Definition Qltb (x y : Q) : bool := negb (Qle_bool y x).

(** [max(x, y)] and [min(x, y)]: the first argument wins a tie. *)
Definition py_max (x y : Q) : Q := if Qltb x y then y else x.
Definition py_min (x y : Q) : Q := if Qltb y x then y else x.

(** [int(x)] on a float truncates toward zero. *)
Definition int_of_float (x : Q) : Z := Z.quot (Qnum x) (Zpos (Qden x)).

(** [x // y] on floats is the floor of the quotient, as a float. *)
Definition float_floordiv (x y : Q) : Q := inject_Z (Qfloor (x / y)).

(** [sum(xs)] on floats, accumulating from the left. *)
Definition sum_float (xs : list Q) : Q := fold_left Qplus xs 0%Q.

(** [sum(d.values())] on a dictionary of ints. *)
Definition sum_values (d : gmap Approach Z) : Z :=
  map_fold (fun _ v acc => acc + v) 0 d.

Section StableSort.
Context {A K : Type}.
(** [before k1 k2]: an item of key [k1] must come strictly before an item
    of key [k2].  With [reverse=False] this is [k1 < k2], with
    [reverse=True] it is [k2 < k1]; in both cases items of equal key keep
    their original relative order. *)
Variable before : K -> K -> bool.
Variable key : A -> K.

Fixpoint insert_sorted (x : A) (l : list A) : list A :=
  match l with
  | [] => [x]
  | y :: l' =>
      if before (key y) (key x) then y :: insert_sorted x l' else x :: l
  end.

Definition sorted_by (l : list A) : list A := foldr insert_sorted [] l.
End StableSort.

(** [max(xs, key=k)] on a non-empty list [x :: xs]: the first maximal item. *)
Fixpoint max_by_key {A : Type} (key : A -> Q) (best : A) (l : list A) : A :=
  match l with
  | [] => best
  | x :: l' => max_by_key key (if Qltb (key best) (key x) then x else best) l'
  end.

(** ** Controller *)

Definition _score (counts : Counts) : Q :=
  (WEIGHTS_car * inject_Z (car counts)
   + WEIGHTS_motorbike * inject_Z (motorbike counts)
   + WEIGHTS_truck * inject_Z (truck counts)
   + WEIGHTS_bus * inject_Z (bus counts))%Q.

(** The body of the loop of [_update_ema], on one entry of [self.state]. *)
Definition ema_step (raw : Q) (s : ApproachState) : ApproachState :=
  mkApproachState (ALPHA_EMA * raw + (1 - ALPHA_EMA) * ema_score s)%Q
                  (skip_streak s).

(** [for a in APPROACHES: <mutate self.state[a]>]: the loops over the state
    all have this shape, the body reading and writing the entry of [a]
    only. *)
Definition for_each_approach
    (body : Approach -> ApproachState -> ApproachState) (self : State)
  : State :=
  fold_left (fun st a => <[a := body a (st a)]> st) APPROACHES self.

Definition _update_ema (self : State) (raw_scores : Approach -> Q) : State :=
  for_each_approach (fun a s => ema_step (raw_scores a) s) self.

(** [reverse=True]: the larger key comes first. *)
Definition Z_desc (k1 k2 : Z) : bool := k2 <? k1.
Definition Q_desc (k1 k2 : Q) : bool := Qltb k2 k1.
Definition Q_asc (k1 k2 : Q) : bool := Qltb k1 k2.

Definition _apply_fairness (self : State) (order : list Approach)
  : list Approach :=
  sorted_by Z_desc (fun a => skip_streak (self a)) order.

(** The two passes "enforce min" and "enforce max", on one entry of [raw]. *)
Definition clamp_green (v : Z) : Z :=
  let v := if v <? GREEN_MIN then GREEN_MIN else v in
  if GREEN_MAX <? v then GREEN_MAX else v.

(** One iteration of the repair loop, without the [i += 1]. *)
Definition repair_body (sorted_as : list Approach)
    (raw : gmap Approach Z) (diff : Z) (i : nat)
  : option (gmap Approach Z * Z) :=
  a ← sorted_as !! (i mod length sorted_as)%nat;
  if 0 <? diff then
    v ← raw !! a;
    if v <? GREEN_MAX then Some (<[a := v + 1]> raw, diff - 1)
    else Some (raw, diff)
  else if diff <? 0 then
    v ← raw !! a;
    if GREEN_MIN <? v then Some (<[a := v - 1]> raw, diff + 1)
    else Some (raw, diff)
  else Some (raw, diff).

(** [while diff != 0 and i < len(sorted_as) * 8].  The result carries the
    final [raw], [diff] and [i]; [None] is an exception of the body, or the
    fuel running out while the guard still holds. *)
Fixpoint repair_loop (fuel : nat) (sorted_as : list Approach)
    (raw : gmap Approach Z) (diff : Z) (i : nat)
  : option (gmap Approach Z * Z * nat) :=
  if negb (diff =? 0) && (i <? length sorted_as * 8)%nat then
    match fuel with
    | O => None
    | S fuel' =>
        '(raw', diff') ← repair_body sorted_as raw diff i;
        repair_loop fuel' sorted_as raw' diff' (S i)
    end
  else Some (raw, diff, i).

(** The part of [_normalize_split] after the zero-total test: the
    proportional shares, their clamping and the repair of the budget. *)
Definition proportional_split (scores : list (Approach * Q))
    (green_budget : Z) (total : Q)
  : option (gmap Approach Z * Z * nat) :=
  let raw : gmap Approach Z :=
    list_to_map
      (map (fun p => (fst p,
                      clamp_green
                        (int_of_float
                           (inject_Z green_budget * (py_max 0 (snd p) / total)))))
           scores) in
  let diff := green_budget - sum_values raw in
  if negb (diff =? 0) then
    let sorted_as :=
      map fst (sorted_by (if 0 <? diff then Q_desc else Q_asc) snd scores) in
    repair_loop (length sorted_as * 8) sorted_as raw diff 0
  else Some (raw, diff, 0%nat).

Definition scores_total (scores : list (Approach * Q)) : Q :=
  sum_float (map (fun p => py_max 0 (snd p)) scores).

Definition _normalize_split (scores : list (Approach * Q)) (green_budget : Z)
  : option (gmap Approach Z) :=
  let total := scores_total scores in
  if Qeq_bool total 0 then
    match length scores with
    | O => None (* ZeroDivisionError *)
    | S _ =>
        let base_each :=
          Z.max GREEN_MIN (green_budget / Z.of_nat (length scores)) in
        Some (list_to_map
                (map (fun p => (fst p, Z.min GREEN_MAX base_each)) scores))
    end
  else
    r ← proportional_split scores green_budget total;
    Some (r.1.1).

Definition snapshot_get (snapshot : gmap string Counts) (a : Approach)
  : Counts :=
  default Counts_default (snapshot !! approach_name a).

Definition raw_scores_of (snapshot : gmap string Counts) (a : Approach) : Q :=
  _score (snapshot_get snapshot a).

Definition emergencies_of (snapshot : gmap string Counts) (a : Approach)
  : bool :=
  emergency (snapshot_get snapshot a).

Definition em_approaches_of (snapshot : gmap string Counts) : list Approach :=
  List.filter (emergencies_of snapshot) APPROACHES.

(** [s.skip_streak = v] *)
Definition set_skip_streak (s : ApproachState) (v : Z) : ApproachState :=
  mkApproachState (ema_score s) v.

Definition preempt_green (score : Q) : Z :=
  Z.max PREEMPT_MIN_GREEN
    (Z.min PREEMPT_MAX_GREEN
       (int_of_float (float_floordiv score 2 + inject_Z GREEN_MIN))).

Definition preempt_streaks (self : State) (target : Approach) : State :=
  for_each_approach
    (fun a s =>
       if decide (a = target) then set_skip_streak s 0
       else set_skip_streak s (skip_streak s + 1))
    self.

Definition cycle_of (congestion : Q) : Z :=
  int_of_float
    (py_max (inject_Z CYCLE_MIN)
       (py_min (inject_Z CYCLE_MAX) (inject_Z CYCLE_MIN + congestion / 50))).

Definition update_streaks (self : State) (green_splits : gmap Approach Z)
  : State :=
  for_each_approach
    (fun a s =>
       if 0 <? default 0 (green_splits !! a) then set_skip_streak s 0
       else set_skip_streak s (skip_streak s + 1))
    self.

Definition clamp_streaks (self : State) : State :=
  for_each_approach
    (fun a s =>
       if FAIRNESS_MAX_SKIP <? skip_streak s
       then set_skip_streak s FAIRNESS_MAX_SKIP
       else s)
    self.

(** Steps 4 to 7 of [compute_plan], named so that statements can refer to
    the arguments handed to [_normalize_split]. *)
Definition base_order (self : State) : list Approach :=
  sorted_by Q_desc (fun a => ema_score (self a)) APPROACHES.

Definition plan_order (self : State) : list Approach :=
  _apply_fairness self (base_order self).

Definition congestion_of (self : State) : Q :=
  sum_float (map (fun a => ema_score (self a)) APPROACHES).

Definition intergreens_of (order : list Approach) : Z :=
  (YELLOW + ALL_RED) * Z.of_nat (length order).

Definition green_budget_of (self : State) : Z :=
  Z.max CYCLE_MIN (cycle_of (congestion_of self))
  - intergreens_of (plan_order self).

Definition split_scores (self : State) : list (Approach * Q) :=
  map (fun a => (a, ema_score (self a))) (plan_order self).

Definition compute_plan (self : State) (snapshot : gmap string Counts)
  : option (Plan * State) :=
  (* 1) raw scores, with emergency flags; 2) EMA smoothing *)
  let self := _update_ema self (raw_scores_of snapshot) in
  let ema_scores := fun a => ema_score (self a) in
  (* 3) emergency preemption? *)
  match em_approaches_of snapshot with
  | a0 :: rest =>
      let target := max_by_key ema_scores a0 rest in
      let g := preempt_green (ema_scores target) in
      let self' := preempt_streaks self target in
      Some (mkPlan [target] {[ target := g ]} (YELLOW + ALL_RED + g)
                   ("Emergency preemption on " +:+ approach_name target),
            self')
  | [] =>
      (* 4) base order, 5) fairness, 6) cycle, 7) green budget and split *)
      let order := plan_order self in
      let intergreens := intergreens_of order in
      let green_budget := green_budget_of self in
      green_splits ← _normalize_split (split_scores self) green_budget;
      (* 8) fairness streaks *)
      let self' := clamp_streaks (update_streaks self green_splits) in
      Some (mkPlan order green_splits (green_budget + intergreens)
                   "Adaptive split by EMA demand with fairness",
            self')
  end.

(** ** Vocabulary of the statements *)

(** Every allocated green lies within the per-phase limits. *)
Definition in_bounds (raw : gmap Approach Z) : Prop :=
  map_Forall (fun _ v => GREEN_MIN <= v <= GREEN_MAX) raw.

Definition same_keys (m1 m2 : gmap Approach Z) : Prop :=
  forall a, is_Some (m1 !! a) <-> is_Some (m2 !! a).

(** The value of [diff] when [_normalize_split] returns from its
    proportional branch; the equal-share branch has no such variable. *)
Definition split_residual (scores : list (Approach * Q)) (green_budget : Z)
  : option Z :=
  let total := scores_total scores in
  if Qeq_bool total 0 then None
  else r ← proportional_split scores green_budget total; Some (r.1.2).


(** The state after step 2 of [compute_plan]: the smoothed scores of this
    invocation, the skip streaks still those of the previous one. *)
Definition smoothed (self : State) (snapshot : gmap string Counts) : State :=
  _update_ema self (raw_scores_of snapshot).

(** No configured approach reports an emergency. *)
Definition no_emergency (snapshot : gmap string Counts) : Prop :=
  forall a, emergencies_of snapshot a = false.


(** The states a controller can be in: the one [__init__] builds, and the
    one each returning call of [compute_plan] leaves behind. *)
Inductive reachable : State -> Prop :=
| reachable_init : reachable init_state
| reachable_step self snapshot plan self' :
    reachable self ->
    compute_plan self snapshot = Some (plan, self') ->
    reachable self'.

(** [clamp(lo, hi, x)] as the specification writes it. *)
Definition clamp (lo hi x : Z) : Z := Z.max lo (Z.min hi x).

(** The state after a sequence of calls of [compute_plan]. *)
Definition after (self : State) (snapshots : list (gmap string Counts))
  : State :=
  fold_left
    (fun st snapshot =>
       match compute_plan st snapshot with
       | Some (_, st') => st'
       | None => st
       end)
    snapshots self.

(** ** Sample snapshots *)

(** Traffic on the east approach only; the other approaches are missing. *)
Definition snapshot_only_east : gmap string Counts :=
  {[ "E" := mkCounts 12 4 1 0 false ]}.

(** Traffic on every approach, no emergency. *)
Definition snapshot_busy : gmap string Counts :=
  {[ "N" := mkCounts 20 10 1 1 false; "E" := mkCounts 50 30 3 1 false;
     "S" := mkCounts 10 10 20 1 false; "W" := mkCounts 8 7 1 1 false ]}.

(** An emergency vehicle on the north approach, respectively on the east
    approach, and nothing else. *)
Definition snapshot_emergency_north : gmap string Counts :=
  {[ "N" := mkCounts 3 0 0 0 true ]}.

Definition snapshot_emergency_east : gmap string Counts :=
  {[ "E" := mkCounts 3 0 0 0 true ]}.

(** Emergencies on the north and on the east approach at once. *)
Definition snapshot_two_emergencies : gmap string Counts :=
  {[ "N" := mkCounts 20 10 1 1 true; "E" := mkCounts 50 30 3 1 true;
     "S" := mkCounts 10 10 20 1 false; "W" := mkCounts 8 7 1 1 false ]}.

(** The controller after an emergency served on the east approach and then
    three in a row on the north approach. *)
Definition state_after_preemptions : State :=
  after init_state
    [snapshot_emergency_east; snapshot_emergency_north;
     snapshot_emergency_north; snapshot_emergency_north].

(** ** Inputs of [_normalize_split] used in the statements *)

(** Two approaches, one of them with a negative score. *)
Definition scores_mixed : list (Approach * Q) :=
  [(North, 3%Q); (East, (-1)%Q)].

(** Four approaches without any demand. *)
Definition scores_idle : list (Approach * Q) :=
  [(North, 0%Q); (East, 0%Q); (South, (-2)%Q); (West, 0%Q)].

(** ** The repair loop as a pass over the approaches it visits *)






(** ** Well-formed inputs and states *)




(** [snapshot_only_east] with an entry under a key that names no approach. *)
Definition snapshot_with_stranger : gmap string Counts :=
  <[ "NE" := mkCounts 40 0 9 0 true ]> snapshot_only_east.

(** ** The counting logic of the vehicle detection scripts

    The scripts [vehicle_detection*.py] read frames from a video source and
    detections from a YOLO model; what follows embeds what they do with the
    detections of a frame.  A detection is the record of the values the
    script reads from a box, already converted by [int(...)]; [model.names]
    is a dictionary from class ids to class names. *)

(** [for item in items: <body>], the body possibly raising. *)
Fixpoint for_each {S A : Type} (body : S -> A -> option S) (s : S)
    (items : list A) : option S :=
  match items with
  | [] => Some s
  | x :: items' => s' ← body s x; for_each body s' items'
  end.

(** [{cls: 0 for cls in classes}] *)
Definition zero_counts (classes : list string) : gmap string Z :=
  list_to_map (map (fun cls => (cls, 0)) classes).

(** The sum of the counts of a dictionary. *)
Definition total_of (counts : gmap string Z) : Z :=
  map_fold (fun _ v acc => acc + v) 0 counts.

(** *** [vehicle_detection.py]: the tally of one frame *)

Definition vehicle_classes : list string :=
  ["car"; "bus"; "truck"; "motorbike"; "bicycle"].

(** The body of the loop over [results[0].boxes]; the box is its
    [int(box.cls[0])]. *)
Definition tally_box (names : gmap Z string) (vehicle_count : gmap string Z)
    (cls_id : Z) : option (gmap string Z) :=
  cls_name ← names !! cls_id;
  match vehicle_count !! cls_name with
  | Some n => Some (<[cls_name := n + 1]> vehicle_count)
  | None => Some vehicle_count
  end.

Definition tally_frame (names : gmap Z string) (boxes : list Z)
  : option (gmap string Z) :=
  for_each (tally_box names) (zero_counts vehicle_classes) boxes.

(** How many boxes carry the class name [cls]. *)
Definition boxes_named (names : gmap Z string) (cls : string)
    (boxes : list Z) : Z :=
  Z.of_nat (length (filter (fun cls_id => names !! cls_id = Some cls) boxes)).

(** *** [vehicle_detection_v0.01.py]: counting at the mid-line *)

(** What the loop reads from a box: [int(box.cls[0])], [int(box.id[0])] or
    [None], and [int(box.xywh[0][1])]. *)
Record TrackedBox := mkTrackedBox {
  tb_cls : Z;
  tb_id : option Z;
  tb_y_center : Z
}.

(** The variables the loop updates; [csv_rows] are the rows written after
    the header. *)
Record MidlineState := mkMidlineState {
  total_vehicle_count : gmap string Z;
  prev_positions : gmap Z Z;
  csv_rows : list (string * Z)
}.

Definition midline_init : MidlineState :=
  mkMidlineState (zero_counts vehicle_classes) ∅ [].

(** The body of the loop over the boxes of a frame of height
    [frame_height] ([frame.shape[0]]). *)
Definition midline_box (names : gmap Z string) (frame_height : Z)
    (st : MidlineState) (box : TrackedBox) : option MidlineState :=
  cls_name ← names !! tb_cls box;
  if bool_decide (cls_name ∈ vehicle_classes) then
    match tb_id box with
    | None => Some st
    | Some obj_id =>
        let y_center := tb_y_center box in
        st1 ← match prev_positions st !! obj_id with
              | Some prev =>
                  if prev + 5 <? y_center then
                    let frame_mid := frame_height / 2 in
                    if (prev <? frame_mid) && (frame_mid <=? y_center) then
                      n ← total_vehicle_count st !! cls_name;
                      Some (mkMidlineState
                              (<[cls_name := n + 1]> (total_vehicle_count st))
                              (prev_positions st)
                              (csv_rows st ++ [(cls_name, n + 1)]))
                    else Some st
                  else Some st
              | None => Some st
              end;
        Some (mkMidlineState (total_vehicle_count st1)
                             (<[obj_id := y_center]> (prev_positions st1))
                             (csv_rows st1))
    end
  else Some st.

(** A frame is its height and its boxes. *)
Definition midline_frame (names : gmap Z string) (st : MidlineState)
    (frame : Z * list TrackedBox) : option MidlineState :=
  for_each (midline_box names frame.1) st frame.2.

Definition midline_run (names : gmap Z string)
    (frames : list (Z * list TrackedBox)) : option MidlineState :=
  for_each (midline_frame names) midline_init frames.

(** *** [vehicle_detection_v0.02.py]: counting at a line, once per track *)

Definition line_classes : gmap Z string :=
  {[ 2 := "car"; 3 := "motorbike"; 5 := "bus"; 7 := "truck" ]}.

(** What the loop reads from a box: [int(box.cls[0])], [int(box.id[0])],
    the corners [map(int, box.xyxy[0])], and the time stamp the clock would
    give if a row were written for this box. *)
Record LineBox := mkLineBox {
  lb_cls : Z;
  lb_track_id : Z;
  lb_x1 : Z; lb_y1 : Z; lb_x2 : Z; lb_y2 : Z;
  lb_stamp : string
}.

Record LineState := mkLineState {
  vehicle_count : gmap string Z;
  counted_ids : gset Z;
  log_rows : list (string * string * Z)
}.

(** [{name: 0 for name in vehicle_classes.values()}], no id counted, no row
    written. *)
Definition line_init : LineState :=
  mkLineState (zero_counts ["car"; "motorbike"; "bus"; "truck"]) ∅ [].

Definition line_box (line_y : Z) (st : LineState) (box : LineBox)
  : option LineState :=
  let cy := (lb_y1 box + lb_y2 box) / 2 in
  if (line_y - 5 <? cy) && (cy <? line_y + 5) then
    if bool_decide (lb_track_id box ∉ counted_ids st) then
      cls_name ← line_classes !! lb_cls box;
      n ← vehicle_count st !! cls_name;
      Some (mkLineState (<[cls_name := n + 1]> (vehicle_count st))
                        ({[ lb_track_id box ]} ∪ counted_ids st)
                        (log_rows st ++ [(lb_stamp box, cls_name, n + 1)]))
    else Some st
  else Some st.

(** A frame is [None] when the tracker gave no ids
    ([results[0].boxes.id is None]), its boxes otherwise. *)
Definition line_frame (line_y : Z) (st : LineState)
    (frame : option (list LineBox)) : option LineState :=
  match frame with
  | None => Some st
  | Some boxes => for_each (line_box line_y) st boxes
  end.

Definition line_run (line_y : Z) (frames : list (option (list LineBox)))
  : option LineState :=
  for_each (line_frame line_y) line_init frames.

(** *** What the counters keep *)

(** [vehicle_detection_v0.01.py]: one row per counted vehicle, counts on the
    five classes only and never negative, every row naming a vehicle class
    with a count of at least one. *)
Definition midline_inv (st : MidlineState) : Prop :=
  total_of (total_vehicle_count st) = Z.of_nat (length (csv_rows st))
  /\ (forall cls,
        is_Some (total_vehicle_count st !! cls) <-> cls ∈ vehicle_classes)
  /\ (forall cls n, total_vehicle_count st !! cls = Some n -> 0 <= n)
  /\ Forall (fun row => row.1 ∈ vehicle_classes /\ 1 <= row.2) (csv_rows st).

(** [vehicle_detection_v0.02.py]: one count and one row per counted track
    id, counts on the four classes only and never negative. *)
Definition line_inv (st : LineState) : Prop :=
  total_of (vehicle_count st) = Z.of_nat (size (counted_ids st))
  /\ length (log_rows st) = size (counted_ids st)
  /\ (forall cls,
        is_Some (vehicle_count st !! cls)
        <-> cls ∈ ["car"; "motorbike"; "bus"; "truck"])
  /\ (forall cls n, vehicle_count st !! cls = Some n -> 0 <= n).

(** Class names as the COCO model gives them for the ids of interest. *)
Definition sample_names : gmap Z string :=
  {[ 0 := "person"; 2 := "car"; 7 := "truck" ]}.

(** A car tracked as id 1 comes down from [y = 40] to [y = 55] in a frame of
    height 100, next to a person and to a truck without track id. *)
Definition sample_midline_frames : list (Z * list TrackedBox) :=
  [ (100, [mkTrackedBox 2 (Some 1) 40; mkTrackedBox 0 (Some 2) 50]);
    (100, [mkTrackedBox 2 (Some 1) 55; mkTrackedBox 7 None 70]) ].

(** Track 4, a car, sits on the line at [y = 300] in two frames; the frame
    in between has no track ids. *)
Definition sample_line_frames : list (option (list LineBox)) :=
  [ Some [mkLineBox 2 4 10 290 50 310 "t1"; mkLineBox 5 9 0 0 20 20 "t1"];
    None;
    Some [mkLineBox 2 4 10 292 50 312 "t3"] ].

(** *** The counts the logs show *)

(** The counts written for class [cls], in the order of the rows. *)
Definition counts_written (cls : string) (rows : list (string * Z))
  : list Z :=
  (filter (fun row => row.1 = cls) rows).*2.

(** Every class has the counts 1, 2, ... up to its present count in the
    rows. *)
Definition running_counts (counts : gmap string Z)
    (rows : list (string * Z)) : Prop :=
  forall cls, counts_written cls rows = seqZ 1 (default 0 (counts !! cls)).

(** The rows of [vehicle_detection_v0.02.py] without their time stamps. *)
Definition log_counts (st : LineState) : list (string * Z) :=
  (fun row => (row.1.2, row.2)) <$> log_rows st.

(** ** The controller in binary64 arithmetic *)

Module B64.

(** *** Floats, exceptions and the built-ins *)

Definition float : Type := spec_float.
Definition prec : Z := 53.
Definition emax : Z := 1024.

Inductive PyError :=
  ZeroDivisionError | OverflowError | ValueError | KeyError.

Inductive Result (A : Type) : Type :=
| Ok (x : A)
| Raise (e : PyError).
Arguments Ok {A} x.
Arguments Raise {A} e.

#[global] Instance Result_bind : MBind Result :=
  fun A B f m => match m with Ok x => f x | Raise e => Raise e end.

(** [float(z)] rounded to nearest, ties to even; infinite past the range. *)
Definition float_of_Z (z : Z) : float := binary_normalize prec emax z 0 false.

(** The conversion of an [int] operand of a float operation. *)
Definition float_of_int (z : Z) : Result float :=
  match float_of_Z z with
  | S754_infinity _ => Raise OverflowError
  | x => Ok x
  end.

Definition zero : float := S754_zero false.
Definition fadd : float -> float -> float := SFadd prec emax.
Definition fsub : float -> float -> float := SFsub prec emax.
Definition fmul : float -> float -> float := SFmul prec emax.
Definition fabs : float -> float := SFabs.

Definition is_zero (x : float) : bool :=
  match x with S754_zero _ => true | _ => false end.

Definition is_finite (x : float) : bool :=
  match x with S754_zero _ | S754_finite _ _ _ => true | _ => false end.

(** [x / y] on floats. *)
Definition fdiv (x y : float) : Result float :=
  if is_zero y then Raise ZeroDivisionError else Ok (SFdiv prec emax x y).

(** The number a finite float stands for. *)
Definition float_value (x : float) : Q :=
  match x with
  | S754_finite s m e => inject_Z (cond_Zopp s (Zpos m)) * Qpower 2 e
  | _ => 0
  end.

(** The values comparisons are made on. *)
Inductive xreal := Xnan | Xneg_inf | Xreal (q : Q) | Xpos_inf.

Definition xreal_of_float (x : float) : xreal :=
  match x with
  | S754_nan => Xnan
  | S754_infinity s => if s then Xneg_inf else Xpos_inf
  | _ => Xreal (float_value x)
  end.

Definition xreal_lt (a b : xreal) : bool :=
  match a, b with
  | Xnan, _ | _, Xnan => false
  | Xreal p, Xreal q => Qltb p q
  | Xneg_inf, (Xreal _ | Xpos_inf) => true
  | Xreal _, Xpos_inf => true
  | _, _ => false
  end.

Definition xreal_eq (a b : xreal) : bool :=
  match a, b with
  | Xreal p, Xreal q => Qeq_bool p q
  | Xneg_inf, Xneg_inf | Xpos_inf, Xpos_inf => true
  | _, _ => false
  end.

Definition float_lt (x y : float) : bool :=
  xreal_lt (xreal_of_float x) (xreal_of_float y).

Definition float_le (x y : float) : bool :=
  float_lt x y || xreal_eq (xreal_of_float x) (xreal_of_float y).

(** An [int] or a [float], where the source mixes them. *)
Inductive num := Int (z : Z) | Float (x : float).

Definition num_value (n : num) : xreal :=
  match n with
  | Int z => Xreal (inject_Z z)
  | Float x => xreal_of_float x
  end.

Definition num_lt (a b : num) : bool := xreal_lt (num_value a) (num_value b).
Definition num_eq (a b : num) : bool := xreal_eq (num_value a) (num_value b).

(** [max(a, b)] keeps [a] unless [b > a]; [min(a, b)] keeps [a] unless
    [b < a]. *)
Definition py_max (a b : num) : num := if num_lt a b then b else a.
Definition py_min (a b : num) : num := if num_lt b a then b else a.
Definition float_max (x y : float) : float := if float_lt x y then y else x.

(** [int(x)]: truncation toward zero. *)
Definition int_of_float (x : float) : Result Z :=
  match x with
  | S754_nan => Raise ValueError
  | S754_infinity _ => Raise OverflowError
  | _ => Ok (Z.quot (Qnum (float_value x)) (Zpos (Qden (float_value x))))
  end.

Definition int_of_num (n : num) : Result Z :=
  match n with
  | Int z => Ok z
  | Float x => int_of_float x
  end.

(** [x // 2] on a float: CPython takes [fmod(x, 2)] away, halves and
    floors; for a finite [x] every step is exact and the result is the
    float of [floor(x / 2)]; for an infinite [x] or a NaN it is NaN. *)
Definition floordiv2 (x : float) : float :=
  match x with
  | S754_nan | S754_infinity _ => S754_nan
  | _ => float_of_Z (Qfloor (float_value x / 2))
  end.

(** [sum(xs)] on floats starts from the integer 0.  CPython up to 3.11 adds
    from the left; from 3.12 on it adds from the left with Neumaier's
    compensation and adds the correction at the end. *)
Inductive SumRule := LeftToRight | Compensated.

Definition neumaier_step (acc : float * float) (x : float) : float * float :=
  let t := fadd acc.1 x in
  if float_le (fabs x) (fabs acc.1)
  then (t, fadd acc.2 (fadd (fsub acc.1 t) x))
  else (t, fadd acc.2 (fadd (fsub x t) acc.1)).

Definition py_sum (rule : SumRule) (xs : list float) : float :=
  match rule with
  | LeftToRight => fold_left fadd xs zero
  | Compensated =>
      match xs with
      | [] => zero
      | x :: rest =>
          let acc := fold_left neumaier_step rest (fadd zero x, zero) in
          if negb (is_zero acc.2) && is_finite acc.2
          then fadd acc.1 acc.2 else acc.1
      end
  end.

(** [max(xs, key=k)] on a non-empty list [x :: xs]: the first maximal item. *)
Fixpoint max_by_key {A : Type} (key : A -> float) (best : A) (l : list A)
  : A :=
  match l with
  | [] => best
  | x :: l' =>
      max_by_key key (if float_lt (key best) (key x) then x else best) l'
  end.

Definition float_desc (k1 k2 : float) : bool := float_lt k2 k1.
Definition float_asc (k1 k2 : float) : bool := float_lt k1 k2.

(** *** Configuration and state *)

Definition WEIGHTS_car : float := float_of_Z 1.
Definition WEIGHTS_motorbike : float :=
  SFdiv prec emax (float_of_Z 1) (float_of_Z 2).
Definition WEIGHTS_truck : float :=
  SFdiv prec emax (float_of_Z 5) (float_of_Z 2).
Definition WEIGHTS_bus : float := float_of_Z 2.
Definition ALPHA_EMA : float := SFdiv prec emax (float_of_Z 1) (float_of_Z 2).

Record ApproachState := mkApproachState {
  ema_score : float;
  skip_streak : Z
}.

Definition State : Type := Approach -> ApproachState.

Definition init_state : State := fun _ => mkApproachState zero 0.

(** *** Controller *)

Definition _score (counts : Counts) : Result float :=
  c ← float_of_int (car counts);
  m ← float_of_int (motorbike counts);
  t ← float_of_int (truck counts);
  b ← float_of_int (bus counts);
  Ok (fadd (fadd (fadd (fmul WEIGHTS_car c) (fmul WEIGHTS_motorbike m))
                 (fmul WEIGHTS_truck t))
           (fmul WEIGHTS_bus b)).

Definition ema_step (raw : float) (s : ApproachState) : ApproachState :=
  mkApproachState
    (fadd (fmul ALPHA_EMA raw)
          (fmul (fsub (float_of_Z 1) ALPHA_EMA) (ema_score s)))
    (skip_streak s).

Definition for_each_approach
    (body : Approach -> ApproachState -> ApproachState) (self : State)
  : State :=
  fold_left (fun st a => <[a := body a (st a)]> st) APPROACHES self.

Definition _update_ema (self : State) (raw_scores : Approach -> float)
  : State :=
  for_each_approach (fun a s => ema_step (raw_scores a) s) self.

Definition _apply_fairness (self : State) (order : list Approach)
  : list Approach :=
  sorted_by Z_desc (fun a => skip_streak (self a)) order.

(** The share of one item of [scores], before the clamping. *)
Definition share_of (green_budget : Z) (total s : float) : Result Z :=
  q ← fdiv (float_max zero s) total;
  b ← float_of_int green_budget;
  int_of_float (fmul b q).

(** The dictionary comprehension over [scores.items()], in order. *)
Fixpoint shares_of (green_budget : Z) (total : float)
    (scores : list (Approach * float)) : Result (list (Approach * Z)) :=
  match scores with
  | [] => Ok []
  | p :: rest =>
      v ← share_of green_budget total p.2;
      tail ← shares_of green_budget total rest;
      Ok ((p.1, v) :: tail)
  end.

(** The part of [_normalize_split] after the zero-total test.  The loop is
    the integer loop [repair_loop]; its [None], a failed lookup in the
    body, is a [KeyError] here. *)
Definition proportional_split (scores : list (Approach * float))
    (green_budget : Z) (total : float)
  : Result (gmap Approach Z * Z * nat) :=
  shares ← shares_of green_budget total scores;
  let raw : gmap Approach Z :=
    list_to_map (map (fun p => (p.1, clamp_green p.2)) shares) in
  let diff := green_budget - sum_values raw in
  if negb (diff =? 0) then
    let sorted_as :=
      map fst
          (sorted_by (if 0 <? diff then float_desc else float_asc) snd
                     scores) in
    match repair_loop (length sorted_as * 8) sorted_as raw diff 0 with
    | Some r => Ok r
    | None => Raise KeyError
    end
  else Ok (raw, diff, 0%nat).

Definition scores_total (rule : SumRule) (scores : list (Approach * float))
  : float :=
  py_sum rule (map (fun p => float_max zero p.2) scores).

Definition _normalize_split (rule : SumRule)
    (scores : list (Approach * float)) (green_budget : Z)
  : Result (gmap Approach Z) :=
  let total := scores_total rule scores in
  if is_zero total then
    match length scores with
    | O => Raise ZeroDivisionError
    | S _ =>
        let base_each :=
          Z.max GREEN_MIN (green_budget / Z.of_nat (length scores)) in
        Ok (list_to_map
              (map (fun p => (p.1, Z.min GREEN_MAX base_each)) scores))
    end
  else
    r ← proportional_split scores green_budget total;
    Ok (r.1.1).

(** The dictionary comprehension of step 1, in the order of [APPROACHES]. *)
Definition raw_scores_of (snapshot : gmap string Counts)
  : Result (Approach -> float) :=
  n ← _score (snapshot_get snapshot North);
  e ← _score (snapshot_get snapshot East);
  s ← _score (snapshot_get snapshot South);
  w ← _score (snapshot_get snapshot West);
  Ok (fun a =>
        match a with North => n | East => e | South => s | West => w end).

Definition set_skip_streak (s : ApproachState) (v : Z) : ApproachState :=
  mkApproachState (ema_score s) v.

Definition preempt_green (score : float) : Result Z :=
  g ← int_of_float (fadd (floordiv2 score) (float_of_Z GREEN_MIN));
  Ok (Z.max PREEMPT_MIN_GREEN (Z.min PREEMPT_MAX_GREEN g)).

Definition preempt_streaks (self : State) (target : Approach) : State :=
  for_each_approach
    (fun a s =>
       if decide (a = target) then set_skip_streak s 0
       else set_skip_streak s (skip_streak s + 1))
    self.

Definition cycle_of (congestion : float) : Result Z :=
  q ← fdiv congestion (float_of_Z 50);
  int_of_num
    (py_max (Int CYCLE_MIN)
       (py_min (Int CYCLE_MAX) (Float (fadd (float_of_Z CYCLE_MIN) q)))).

Definition update_streaks (self : State) (green_splits : gmap Approach Z)
  : State :=
  for_each_approach
    (fun a s =>
       if 0 <? default 0 (green_splits !! a) then set_skip_streak s 0
       else set_skip_streak s (skip_streak s + 1))
    self.

Definition clamp_streaks (self : State) : State :=
  for_each_approach
    (fun a s =>
       if FAIRNESS_MAX_SKIP <? skip_streak s
       then set_skip_streak s FAIRNESS_MAX_SKIP
       else s)
    self.

(** [sorted(APPROACHES, key=..., reverse=True)].  With a NaN among the
    keys, here and in [proportional_split], [<] is not an order and the
    result of CPython's sort depends on its merge strategy; the model then
    has the order of a stable insertion sort, which CPython need not
    give.  Without a NaN every stable sort gives this order. *)
Definition base_order (self : State) : list Approach :=
  sorted_by float_desc (fun a => ema_score (self a)) APPROACHES.

Definition plan_order (self : State) : list Approach :=
  _apply_fairness self (base_order self).

Definition congestion_of (rule : SumRule) (self : State) : float :=
  py_sum rule (map (fun a => ema_score (self a)) APPROACHES).

Definition split_scores (self : State) : list (Approach * float) :=
  map (fun a => (a, ema_score (self a))) (plan_order self).

(** Steps 4 to 8 of [compute_plan], on the state after the smoothing; the
    state is returned as the call leaves it, also when it raises. *)
Definition normal_plan (rule : SumRule) (self : State)
  : State * Result Plan :=
  let order := plan_order self in
  match cycle_of (congestion_of rule self) with
  | Raise e => (self, Raise e)
  | Ok cycle =>
      let intergreens := intergreens_of order in
      let green_budget := Z.max CYCLE_MIN cycle - intergreens in
      match _normalize_split rule (split_scores self) green_budget with
      | Raise e => (self, Raise e)
      | Ok green_splits =>
          (clamp_streaks (update_streaks self green_splits),
           Ok (mkPlan order green_splits (green_budget + intergreens)
                      "Adaptive split by EMA demand with fairness"))
      end
  end.

(** Step 3 of [compute_plan]: the streaks are updated before the plan is
    built. *)
Definition preempt_plan (self : State) (target : Approach)
  : State * Result Plan :=
  (preempt_streaks self target,
   g ← preempt_green (ema_score (self target));
   Ok (mkPlan [target] {[ target := g ]} (YELLOW + ALL_RED + g)
              ("Emergency preemption on " +:+ approach_name target))).

Definition compute_plan (rule : SumRule) (self : State)
    (snapshot : gmap string Counts) : State * Result Plan :=
  match raw_scores_of snapshot with
  | Raise e => (self, Raise e)
  | Ok raw_scores =>
      let self := _update_ema self raw_scores in
      match em_approaches_of snapshot with
      | a0 :: rest =>
          preempt_plan self
            (max_by_key (fun a => ema_score (self a)) a0 rest)
      | [] => normal_plan rule self
      end
  end.

(** The controller after a sequence of calls, with what each call gave. *)
Definition run (rule : SumRule) (self : State)
    (snapshots : list (gmap string Counts)) : State * list (Result Plan) :=
  fold_left
    (fun acc snapshot =>
       let r := compute_plan rule acc.1 snapshot in (r.1, acc.2 ++ [r.2]))
    snapshots (self, []).

(** *** Vocabulary of the statements *)

(** [z] converts to a float: its nearest float is not an infinity. *)
Definition fits (z : Z) : bool :=
  match float_of_Z z with
  | S754_infinity _ => false
  | _ => true
  end.

Definition counts_fit (c : Counts) : bool :=
  fits (car c) && fits (motorbike c) && fits (truck c) && fits (bus c).

(** [clamp(CYCLE_MIN, CYCLE_MAX, floor(x))] for a float [x]: a NaN and plus
    infinity are not below [CYCLE_MAX], minus infinity is not above
    [CYCLE_MIN]. *)
Definition clamped_floor (x : float) : Z :=
  match x with
  | S754_nan => CYCLE_MAX
  | S754_infinity s => if s then CYCLE_MIN else CYCLE_MAX
  | _ => clamp CYCLE_MIN CYCLE_MAX (Qfloor (float_value x))
  end.

(** [CYCLE_MIN + (congestion / 50)], the float whose floor the cycle is. *)
Definition cycle_estimate (congestion : float) : float :=
  fadd (float_of_Z CYCLE_MIN) (SFdiv prec emax congestion (float_of_Z 50)).

(** The budget handed to [_normalize_split]. *)
Definition green_budget_of (rule : SumRule) (self : State) : Z :=
  Z.max CYCLE_MIN (clamped_floor (cycle_estimate (congestion_of rule self)))
  - intergreens_of (plan_order self).

(** The state after step 2 of [compute_plan]. *)
Definition smoothed (self : State) (snapshot : gmap string Counts) : State :=
  match raw_scores_of snapshot with
  | Ok raw_scores => _update_ema self raw_scores
  | Raise _ => self
  end.

(** The floats a call hands to [int()] after the smoothing, the clamped
    cycle apart: the preemption green before its clamping, or the
    proportional shares. *)
Definition products (green_budget : Z) (total : float)
    (scores : list (Approach * float)) : list float :=
  map (fun p => fmul (float_of_Z green_budget)
                     (SFdiv prec emax (float_max zero p.2) total))
      scores.

Definition int_arguments (rule : SumRule) (self : State)
    (snapshot : gmap string Counts) : list float :=
  let self := smoothed self snapshot in
  match em_approaches_of snapshot with
  | a0 :: rest =>
      let target := max_by_key (fun a => ema_score (self a)) a0 rest in
      [fadd (floordiv2 (ema_score (self target))) (float_of_Z GREEN_MIN)]
  | [] =>
      let total := scores_total rule (split_scores self) in
      if is_zero total then []
      else products (green_budget_of rule self) total (split_scores self)
  end.

(** *** Sample inputs *)

(** Two approaches, one of them with a negative score. *)
Definition scores_mixed : list (Approach * float) :=
  [(North, float_of_Z 3); (East, float_of_Z (-1))].

(** A count past the range of the floats. *)
Definition snapshot_huge : gmap string Counts :=
  {[ "N" := mkCounts (10 ^ 400) 0 0 0 false ]}.

(** Counts that convert, with a score past the range of the floats. *)
Definition snapshot_overflowing : gmap string Counts :=
  {[ "N" := mkCounts (10 ^ 308) 0 (10 ^ 308) 0 false ]}.

(** Fifty cars on the north approach. *)
Definition snapshot_fifty : gmap string Counts :=
  {[ "N" := mkCounts 50 0 0 0 false ]}.

End B64.

(** ** Facts about the numeric built-ins *)

Section Numbers.
Local Open Scope Q_scope.

Lemma Qltb_lt (x y : Q) : Qltb x y = true <-> x < y.
Proof.
  unfold Qltb. rewrite negb_true_iff. split.
  - intros Hb. apply Qnot_le_lt. intros Hle.
    apply Qle_bool_iff in Hle. congruence.
  - intros Hlt. destruct (Qle_bool y x) eqn:Hb; [|reflexivity].
    apply Qle_bool_iff in Hb. exfalso. exact (Qlt_not_le _ _ Hlt Hb).
Qed.

Lemma Qltb_ge (x y : Q) : Qltb x y = false <-> y <= x.
Proof.
  unfold Qltb. rewrite negb_false_iff. apply Qle_bool_iff.
Qed.


Lemma int_of_float_nonneg (x : Q) : 0 <= x -> int_of_float x = Qfloor x.
Proof.
  destruct x as [n d]. unfold Qle, int_of_float, Qfloor. simpl.
  intros Hn. apply Z.quot_div_nonneg; lia.
Qed.





Lemma Qfloor_ge (n : Z) (x : Q) : inject_Z n <= x -> (n <= Qfloor x)%Z.
Proof. intros H. rewrite <- (Qfloor_Z n). apply Qfloor_resp_le, H. Qed.

Lemma Qfloor_lt (n : Z) (x : Q) : x < inject_Z n -> (Qfloor x < n)%Z.
Proof.
  intros H. rewrite Zlt_Qlt.
  eapply Qle_lt_trans; [apply Qfloor_le | exact H].
Qed.


End Numbers.

(** ** The state updates, read at one approach *)

Lemma for_each_approach_at body (self : State) (a : Approach) :
  for_each_approach body self a = body a (self a).
Proof. destruct a; reflexivity. Qed.

Section StateUpdates.
Variable self : State.

Lemma update_ema_at (raw_scores : Approach -> Q) (a : Approach) :
  _update_ema self raw_scores a = ema_step (raw_scores a) (self a).
Proof. apply for_each_approach_at. Qed.

Lemma update_ema_skip (raw_scores : Approach -> Q) (a : Approach) :
  skip_streak (_update_ema self raw_scores a) = skip_streak (self a).
Proof. rewrite update_ema_at. reflexivity. Qed.



Lemma update_streaks_ema (green_splits : gmap Approach Z) (a : Approach) :
  ema_score (update_streaks self green_splits a) = ema_score (self a).
Proof.
  unfold update_streaks. rewrite for_each_approach_at.
  case_match; reflexivity.
Qed.


Lemma clamp_streaks_ema (a : Approach) :
  ema_score (clamp_streaks self a) = ema_score (self a).
Proof.
  unfold clamp_streaks. rewrite for_each_approach_at.
  case_match; reflexivity.
Qed.

End StateUpdates.

(** ** The stable sort is a permutation *)

Section StableSortFacts.
Context {A K : Type} (before : K -> K -> bool) (key : A -> K).

Lemma insert_sorted_perm (x : A) (l : list A) :
  insert_sorted before key x l ≡ₚ x :: l.
Proof.
  induction l as [|y l IH]; simpl; [reflexivity|].
  destruct (before (key y) (key x)); [|reflexivity].
  rewrite IH. apply Permutation_swap.
Qed.

Lemma sorted_by_perm (l : list A) : sorted_by before key l ≡ₚ l.
Proof.
  induction l as [|x l IH]; simpl; [reflexivity|].
  rewrite insert_sorted_perm, IH. reflexivity.
Qed.

Lemma sorted_by_length (l : list A) :
  length (sorted_by before key l) = length l.
Proof. apply Permutation_length, sorted_by_perm. Qed.
End StableSortFacts.

(** ** Sums over dictionaries of green seconds *)

Lemma sum_values_empty : sum_values ∅ = 0.
Proof. unfold sum_values. apply map_fold_empty. Qed.

Lemma sum_values_insert_fresh (m : gmap Approach Z) (a : Approach) (w : Z) :
  m !! a = None -> sum_values (<[a := w]> m) = sum_values m + w.
Proof.
  intros Hnone. unfold sum_values.
  rewrite map_fold_insert_L; [reflexivity| |exact Hnone].
  intros; lia.
Qed.

Lemma sum_values_insert (m : gmap Approach Z) (a : Approach) (v w : Z) :
  m !! a = Some v -> sum_values (<[a := w]> m) = sum_values m - v + w.
Proof.
  intros Hsome.
  rewrite <- (insert_delete_eq m a w).
  rewrite <- (insert_delete_id m a v Hsome) at 2.
  rewrite !sum_values_insert_fresh by apply lookup_delete_eq.
  lia.
Qed.

Lemma sum_values_const (c : Z) (l : list Approach) :
  NoDup l ->
  sum_values (list_to_map (map (fun a => (a, c)) l)) = c * Z.of_nat (length l).
Proof.
  induction 1 as [|a l Hnotin Hnd IH]; simpl.
  - rewrite sum_values_empty. lia.
  - rewrite sum_values_insert_fresh, IH; [lia|].
    apply not_elem_of_list_to_map_1.
    rewrite <- list_fmap_compose. simpl.
    rewrite list_fmap_id. exact Hnotin.
Qed.

(** ** The repair loop of [_normalize_split] *)

Lemma same_keys_insert (m : gmap Approach Z) (a : Approach) (v w : Z) :
  m !! a = Some v -> same_keys (<[a := w]> m) m.
Proof.
  intros Hv b. rewrite lookup_insert_is_Some.
  destruct (decide (a = b)) as [<-|Hne].
  - rewrite Hv. split; eauto.
  - split; [intros [?|[_ ?]]; [contradiction | assumption] | auto].
Qed.

Lemma same_keys_refl (m : gmap Approach Z) : same_keys m m.
Proof. intros b. reflexivity. Qed.

Lemma same_keys_trans (m1 m2 m3 : gmap Approach Z) :
  same_keys m1 m2 -> same_keys m2 m3 -> same_keys m1 m3.
Proof. intros H12 H23 b. rewrite (H12 b). apply H23. Qed.

Lemma repair_body_spec sorted_as raw diff i raw' diff' :
  repair_body sorted_as raw diff i = Some (raw', diff') ->
  sum_values raw' + diff' = sum_values raw + diff
  /\ same_keys raw' raw
  /\ (in_bounds raw -> in_bounds raw').
Proof.
  unfold repair_body. intros H.
  destruct (sorted_as !! (i mod length sorted_as)%nat) as [a|];
    simpl in H; [|discriminate].
  assert (Hid : sum_values raw + diff = sum_values raw + diff
                /\ same_keys raw raw /\ (in_bounds raw -> in_bounds raw))
    by (split; [reflexivity | split; [apply same_keys_refl | auto]]).
  destruct (0 <? diff) eqn:Hpos.
  - destruct (raw !! a) as [v|] eqn:Hv; simpl in H; [|discriminate].
    destruct (v <? GREEN_MAX) eqn:Hlt; simplify_eq; [|exact Hid].
    apply Z.ltb_lt in Hlt.
    rewrite (sum_values_insert _ _ v) by exact Hv.
    split; [lia|]. split; [eapply same_keys_insert, Hv|].
    intros Hb. apply map_Forall_insert_2; [|exact Hb].
    specialize (Hb a v Hv). simpl in Hb. lia.
  - destruct (diff <? 0) eqn:Hneg; simplify_eq; [|exact Hid].
    destruct (raw !! a) as [v|] eqn:Hv; simpl in H; [|discriminate].
    destruct (GREEN_MIN <? v) eqn:Hlt; simplify_eq; [|exact Hid].
    apply Z.ltb_lt in Hlt.
    rewrite (sum_values_insert _ _ v) by exact Hv.
    split; [lia|]. split; [eapply same_keys_insert, Hv|].
    intros Hb. apply map_Forall_insert_2; [|exact Hb].
    specialize (Hb a v Hv). simpl in Hb. lia.
Qed.

Lemma repair_body_total sorted_as raw diff i :
  sorted_as <> [] ->
  (forall a, a ∈ sorted_as -> is_Some (raw !! a)) ->
  is_Some (repair_body sorted_as raw diff i).
Proof.
  intros Hne Hkeys. unfold repair_body.
  destruct (lookup_lt_is_Some_2 sorted_as (i mod length sorted_as)) as [a Ha].
  { apply Nat.mod_upper_bound. destruct sorted_as; [done|simpl; lia]. }
  rewrite Ha. simpl.
  destruct (Hkeys a) as [v Hv]; [eapply list_elem_of_lookup_2, Ha|].
  rewrite Hv. simpl. repeat case_match; eauto.
Qed.

Lemma repair_loop_spec fuel sorted_as : forall raw diff i raw' diff' i',
  repair_loop fuel sorted_as raw diff i = Some (raw', diff', i') ->
  sum_values raw' + diff' = sum_values raw + diff
  /\ same_keys raw' raw
  /\ (in_bounds raw -> in_bounds raw')
  /\ (i <= i')%nat
  /\ (i' <= Nat.max i (length sorted_as * 8))%nat
  /\ (diff' = 0 \/ (length sorted_as * 8 <= i')%nat).
Proof.
  induction fuel as [|fuel IH]; intros raw diff i raw' diff' i' H; simpl in H.
  - destruct (negb (diff =? 0) && (i <? length sorted_as * 8)%nat) eqn:G;
      [discriminate|].
    simplify_eq. apply andb_false_iff in G.
    rewrite negb_false_iff, Z.eqb_eq, Nat.ltb_ge in G.
    split; [reflexivity|]. split; [apply same_keys_refl|].
    split; [auto|]. lia.
  - destruct (negb (diff =? 0) && (i <? length sorted_as * 8)%nat) eqn:G.
    + apply andb_true_iff in G. destruct G as [_ G]. apply Nat.ltb_lt in G.
      destruct (repair_body sorted_as raw diff i) as [[raw1 diff1]|] eqn:Hb;
        simpl in H; [|discriminate].
      apply repair_body_spec in Hb. destruct Hb as (Hs1 & Hk1 & Hb1).
      apply IH in H. destruct H as (Hs & Hk & Hb & Hi & Hi' & Hex).
      split; [lia|]. split; [eapply same_keys_trans; eassumption|].
      split; [auto|]. lia.
    + simplify_eq. apply andb_false_iff in G.
      rewrite negb_false_iff, Z.eqb_eq, Nat.ltb_ge in G.
      split; [reflexivity|]. split; [apply same_keys_refl|].
      split; [auto|]. lia.
Qed.

Lemma repair_loop_total sorted_as : forall fuel raw diff i,
  (length sorted_as * 8 - i <= fuel)%nat ->
  (forall a, a ∈ sorted_as -> is_Some (raw !! a)) ->
  is_Some (repair_loop fuel sorted_as raw diff i).
Proof.
  induction fuel as [|fuel IH]; intros raw diff i Hfuel Hkeys; simpl.
  - destruct (negb (diff =? 0) && (i <? length sorted_as * 8)%nat) eqn:G;
      [|eauto].
    apply andb_true_iff in G. destruct G as [_ G]. apply Nat.ltb_lt in G. lia.
  - destruct (negb (diff =? 0) && (i <? length sorted_as * 8)%nat) eqn:G;
      [|eauto].
    apply andb_true_iff in G. destruct G as [_ G]. apply Nat.ltb_lt in G.
    destruct (repair_body_total sorted_as raw diff i) as [[raw1 diff1] Hb].
    { destruct sorted_as; [simpl in G; lia | done]. }
    { exact Hkeys. }
    rewrite Hb. simpl. apply IH; [lia|].
    intros a Ha. apply repair_body_spec in Hb. destruct Hb as (_ & Hk & _).
    apply (Hk a). auto.
Qed.

(** More fuel than the bound of the guard never changes the outcome. *)
Lemma repair_loop_fuel sorted_as : forall fuel1 fuel2 raw diff i r,
  (fuel1 <= fuel2)%nat ->
  repair_loop fuel1 sorted_as raw diff i = Some r ->
  repair_loop fuel2 sorted_as raw diff i = Some r.
Proof.
  induction fuel1 as [|fuel1 IH]; intros fuel2 raw diff i r Hle H.
  - simpl in H. destruct fuel2; simpl;
      destruct (negb (diff =? 0) && (i <? length sorted_as * 8)%nat);
      congruence.
  - destruct fuel2 as [|fuel2]; [lia|]. simpl in *.
    destruct (negb (diff =? 0) && (i <? length sorted_as * 8)%nat);
      [|exact H].
    destruct (repair_body sorted_as raw diff i) as [[raw1 diff1]|];
      simpl in *; [|discriminate].
    apply IH; [lia | exact H].
Qed.

(** ** [_normalize_split] *)

Lemma clamp_green_bounds (v : Z) :
  GREEN_MIN <= clamp_green v <= GREEN_MAX.
Proof.
  unfold clamp_green, GREEN_MIN, GREEN_MAX.
  destruct (v <? 8) eqn:H1; destruct (60 <? _) eqn:H2; lia.
Qed.

Section SplitFacts.
Variable scores : list (Approach * Q).
Variable green_budget : Z.

Lemma list_to_map_keys (f : Approach * Q -> Z) (a : Approach) :
  is_Some ((list_to_map (map (fun p => (p.1, f p)) scores)
            : gmap Approach Z) !! a)
  <-> a ∈ scores.*1.
Proof.
  rewrite <- not_eq_None_Some, <- not_elem_of_list_to_map.
  rewrite <- list_fmap_compose.
  destruct (decide (a ∈ scores.*1)); tauto.
Qed.

Lemma sorted_keys before (a : Approach) :
  a ∈ map fst (sorted_by before snd scores) <-> a ∈ scores.*1.
Proof.
  assert (Hp : map fst (sorted_by before snd scores) ≡ₚ scores.*1)
    by (apply fmap_Permutation, sorted_by_perm).
  rewrite Hp. reflexivity.
Qed.


Lemma proportional_split_total total :
  is_Some (proportional_split scores green_budget total).
Proof.
  unfold proportional_split. cbv zeta.
  match goal with |- context [negb ?c] => destruct (negb c) end; [|eauto].
  apply repair_loop_total; [lia|].
  intros a Ha. apply (list_to_map_keys _ a). eapply sorted_keys, Ha.
Qed.


Lemma normalize_split_total :
  scores <> [] -> is_Some (_normalize_split scores green_budget).
Proof.
  intros Hne. unfold _normalize_split.
  destruct (Qeq_bool (scores_total scores) 0).
  - destruct scores; [done|]. simpl. eauto.
  - destruct (proportional_split_total (scores_total scores)) as [r Hr].
    rewrite Hr. simpl. eauto.
Qed.
End SplitFacts.

(** ** Sums of scores *)

Section FloatSums.
Local Open Scope Q_scope.

Lemma fold_left_Qplus_acc (l : list Q) (acc : Q) :
  fold_left Qplus l acc == acc + foldr Qplus 0 l.
Proof.
  revert acc. induction l as [|x l IH]; intros acc; simpl.
  - ring.
  - rewrite IH. ring.
Qed.

Lemma sum_float_foldr (l : list Q) : sum_float l == foldr Qplus 0 l.
Proof. unfold sum_float. rewrite fold_left_Qplus_acc. ring. Qed.




End FloatSums.

(** ** The order and the budget of the normal path *)

Section NormalPath.
Variable self : State.

Lemma plan_order_perm : plan_order self ≡ₚ APPROACHES.
Proof.
  unfold plan_order, _apply_fairness, base_order.
  rewrite !sorted_by_perm. reflexivity.
Qed.

Lemma plan_order_length : length (plan_order self) = 4%nat.
Proof. rewrite plan_order_perm. reflexivity. Qed.


Lemma plan_order_elem (a : Approach) : a ∈ plan_order self.
Proof.
  rewrite plan_order_perm. unfold APPROACHES. destruct a; set_solver.
Qed.


Lemma split_scores_nonempty : split_scores self <> [].
Proof.
  intros H. apply (f_equal length) in H. unfold split_scores in H.
  rewrite length_map, plan_order_length in H. discriminate.
Qed.




End NormalPath.

(** ** The two paths of [compute_plan] *)

Section Paths.
Variable self : State.
Variable snapshot : gmap string Counts.

Lemma no_emergency_em :
  no_emergency snapshot <-> em_approaches_of snapshot = [].
Proof.
  unfold no_emergency, em_approaches_of, APPROACHES. simpl. split.
  - intros H. rewrite !H. reflexivity.
  - intros H a.
    destruct (emergencies_of snapshot North) eqn:HN; [discriminate|].
    destruct (emergencies_of snapshot East) eqn:HE; [discriminate|].
    destruct (emergencies_of snapshot South) eqn:HS; [discriminate|].
    destruct (emergencies_of snapshot West) eqn:HW; [discriminate|].
    destruct a; assumption.
Qed.


Lemma compute_plan_normal :
  no_emergency snapshot ->
  exists green_splits,
    _normalize_split (split_scores (smoothed self snapshot))
                     (green_budget_of (smoothed self snapshot))
    = Some green_splits
    /\ compute_plan self snapshot =
       Some (mkPlan (plan_order (smoothed self snapshot)) green_splits
                    (green_budget_of (smoothed self snapshot)
                     + intergreens_of (plan_order (smoothed self snapshot)))
                    "Adaptive split by EMA demand with fairness",
             clamp_streaks
               (update_streaks (smoothed self snapshot) green_splits)).
Proof.
  intros Hno. apply no_emergency_em in Hno.
  destruct (normalize_split_total
              (split_scores (smoothed self snapshot))
              (green_budget_of (smoothed self snapshot))
              (split_scores_nonempty _)) as [g Hg].
  exists g. split; [exact Hg|].
  unfold compute_plan. rewrite Hno. fold (smoothed self snapshot).
  rewrite Hg. reflexivity.
Qed.


End Paths.

(** ** Smoothing *)


(** ** Missing approaches *)

Lemma approach_name_inj (a b : Approach) :
  approach_name a = approach_name b -> a = b.
Proof. destruct a, b; simpl; intros H; first [reflexivity | discriminate]. Qed.

Lemma compute_plan_ext self (snapshot1 snapshot2 : gmap string Counts) :
  (forall a, snapshot_get snapshot1 a = snapshot_get snapshot2 a) ->
  compute_plan self snapshot1 = compute_plan self snapshot2.
Proof.
  intros Heq.
  unfold compute_plan, em_approaches_of, _update_ema, for_each_approach,
    APPROACHES, raw_scores_of, emergencies_of.
  cbn [fold_left List.filter]. rewrite !Heq. reflexivity.
Qed.

(** C9. A snapshot with no entry for a configured approach yields the same
    plan and the same post-state as the snapshot extended, for that
    approach, with all-zero counts and no emergency. *)
Theorem C9_missing_approach (self : State) (snapshot : gmap string Counts)
    (a : Approach) :
  snapshot !! approach_name a = None ->
  compute_plan self snapshot =
  compute_plan self (<[approach_name a := Counts_default]> snapshot).
Proof.
  intros Hnone. apply compute_plan_ext. intros b. unfold snapshot_get.
  destruct (decide (a = b)) as [<-|Hne].
  - rewrite Hnone, lookup_insert_eq. reflexivity.
  - rewrite lookup_insert_ne; [reflexivity|].
    intros Heq. apply Hne, approach_name_inj, Heq.
Qed.

Lemma C9_missing_approach_witness :
  snapshot_only_east !! approach_name North = None
  /\ compute_plan init_state snapshot_only_east =
     compute_plan init_state
       (<[approach_name North := Counts_default]> snapshot_only_east).
Proof.
  split; [reflexivity|].
  apply (C9_missing_approach init_state snapshot_only_east North).
  reflexivity.
Defined.

(** ** Green budget *)




(** The hypothesis of C1 is a real restriction: with two cars on the north
    approach only, the loop gives up with sixteen seconds too many. *)
Example repair_gives_up :
  let snapshot : gmap string Counts := {[ "N" := mkCounts 2 0 0 0 false ]} in
  split_residual (split_scores (smoothed init_state snapshot))
                 (green_budget_of (smoothed init_state snapshot))
  = Some (-16).
Proof. vm_compute. reflexivity. Qed.

(** ** Per-phase limits *)





(** ** Skip streaks *)

Lemma after_reachable (snapshots : list (gmap string Counts)) :
  forall self, reachable self -> reachable (after self snapshots).
Proof.
  induction snapshots as [|snapshot l IH]; intros self Hr; [exact Hr|].
  unfold after. cbn [fold_left]. apply IH.
  destruct (compute_plan self snapshot) as [[plan self']|] eqn:H;
    [|exact Hr].
  exact (reachable_step self snapshot plan self' Hr H).
Qed.


(** ** Preemption *)






(** The target of that snapshot is the east approach, for 25 seconds. *)
Example preemption_on_east :
  (fun r => (phase_order r.1, green_times r.1 !! East, cycle_time r.1))
    <$> compute_plan init_state snapshot_two_emergencies
  = Some ([East], Some 25, 29).
Proof. vm_compute. reflexivity. Qed.

(** ** Fairness order *)

Lemma sorted_by_ext {A K : Type} (before : K -> K -> bool)
    (key1 key2 : A -> K) (l : list A) :
  (forall x, key1 x = key2 x) ->
  sorted_by before key1 l = sorted_by before key2 l.
Proof.
  intros Hext. induction l as [|x l IH]; simpl; [reflexivity|].
  rewrite IH. generalize (sorted_by before key2 l). intros l'.
  induction l' as [|y l' IH']; simpl; [reflexivity|].
  rewrite !Hext, IH'. reflexivity.
Qed.

Section FairnessSort.
Context {A : Type} (key : A -> Z).

Let ge_key (x y : A) : Prop := key y <= key x.

Lemma insert_sorted_desc (x : A) (l : list A) :
  StronglySorted ge_key l ->
  StronglySorted ge_key (insert_sorted Z_desc key x l).
Proof.
  induction 1 as [|y l Hs IH Hy]; simpl.
  - repeat constructor.
  - unfold Z_desc at 1. destruct (key x <? key y) eqn:Hlt.
    + apply Z.ltb_lt in Hlt. constructor; [exact IH|].
      rewrite (insert_sorted_perm Z_desc key x l).
      constructor; [unfold ge_key; lia | exact Hy].
    + apply Z.ltb_ge in Hlt. constructor.
      * constructor; assumption.
      * constructor; [exact Hlt|].
        eapply Forall_impl; [exact Hy|].
        unfold ge_key. intros z Hz. simpl in Hz. lia.
Qed.

Lemma sorted_by_desc (l : list A) :
  StronglySorted ge_key (sorted_by Z_desc key l).
Proof.
  induction l as [|x l IH]; simpl; [constructor|].
  apply insert_sorted_desc, IH.
Qed.

(** Whatever precedes an item in the sorted list has a key at least as
    large. *)
Lemma sorted_by_desc_prefix (l l1 l2 : list A) (a b : A) :
  sorted_by Z_desc key l = l1 ++ a :: l2 -> b ∈ l1 -> key a <= key b.
Proof.
  intros Heq Hb. pose proof (sorted_by_desc l) as Hs. rewrite Heq in Hs.
  eapply (StronglySorted_app_1_elem_of _ _ _ _ _ Hs); [exact Hb | left].
Qed.
End FairnessSort.

(** On the normal path the emitted order is the two-pass stable sort, and an
    approach whose skip streak is at the ceiling is preceded only by
    approaches at the ceiling too, as long as no streak is above it. *)
Lemma fairness_first_below_ceiling (self : State)
    (snapshot : gmap string Counts) (a : Approach) :
  no_emergency snapshot ->
  (forall b, skip_streak (self b) <= FAIRNESS_MAX_SKIP) ->
  skip_streak (self a) = FAIRNESS_MAX_SKIP ->
  exists plan self',
    compute_plan self snapshot = Some (plan, self')
    /\ phase_order plan =
       sorted_by Z_desc (fun b => skip_streak (self b))
         (sorted_by Q_desc (fun b => ema_score (self' b)) APPROACHES)
    /\ exists l1 l2,
         phase_order plan = l1 ++ a :: l2
         /\ forall b, b ∈ l1 -> skip_streak (self b) = FAIRNESS_MAX_SKIP.
Proof.
  intros Hno Hle Ha.
  destruct (compute_plan_normal self snapshot Hno) as (g & _ & Hc).
  eexists _, _. split; [exact Hc|]. cbn [phase_order].
  assert (Horder :
            plan_order (smoothed self snapshot) =
            sorted_by Z_desc (fun b => skip_streak (self b))
              (sorted_by Q_desc
                 (fun b => ema_score
                             (clamp_streaks
                                (update_streaks (smoothed self snapshot) g) b))
                 APPROACHES)).
  { unfold plan_order, _apply_fairness, base_order.
    rewrite (sorted_by_ext Z_desc
               (fun b => skip_streak (smoothed self snapshot b))
               (fun b => skip_streak (self b)))
      by (intros b; apply update_ema_skip).
    f_equal. apply sorted_by_ext. intros b.
    rewrite clamp_streaks_ema, update_streaks_ema. reflexivity. }
  split; [exact Horder|].
  destruct (list_elem_of_split _ _ (plan_order_elem (smoothed self snapshot) a))
    as (l1 & l2 & Heq).
  exists l1, l2. split; [exact Heq|]. intros b Hb.
  rewrite Horder in Heq.
  pose proof (sorted_by_desc_prefix _ _ _ _ _ _ Heq Hb) as Hge.
  simpl in Hge. specialize (Hle b). lia.
Qed.

(** C6. The emitted order is the two-pass stable sort
    ([fairness_first_below_ceiling]), but an approach at the ceiling
    [FAIRNESS_MAX_SKIP] with demand is not always first or tied first in it:
    the preemption path never clamps, so after an emergency on the east
    approach and three on the north one the east streak is 3 while the south
    and west streaks are 4, and the next normal plan serves south and west
    before east. *)
Theorem C6_starved_approach_not_first :
  reachable state_after_preemptions
  /\ no_emergency snapshot_busy
  /\ skip_streak (state_after_preemptions East) = FAIRNESS_MAX_SKIP
  /\ (0 < raw_scores_of snapshot_busy East)%Q
  /\ FAIRNESS_MAX_SKIP < skip_streak (state_after_preemptions South)
  /\ (fun r => phase_order r.1)
       <$> compute_plan state_after_preemptions snapshot_busy
     = Some [South; West; East; North].
Proof.
  split; [apply after_reachable, reachable_init|].
  split; [intros a; destruct a; reflexivity|].
  repeat split; vm_compute; reflexivity.
Qed.

(** ** [_normalize_split] on arbitrary inputs *)

Lemma scores_total_no_demand (scores : list (Approach * Q)) :
  Forall (fun p => (p.2 <= 0)%Q) scores ->
  Qeq_bool (scores_total scores) 0 = true.
Proof.
  intros Hall. apply Qeq_bool_iff. unfold scores_total.
  rewrite sum_float_foldr.
  induction Hall as [|p l Hp _ IH]; simpl; [reflexivity|].
  rewrite IH. unfold py_max.
  destruct (Qltb 0 p.2) eqn:Hlt; [|reflexivity].
  apply Qltb_lt in Hlt. exfalso. exact (Qlt_not_le _ _ Hlt Hp).
Qed.

Lemma sum_values_const_scores (c : Z) (scores : list (Approach * Q)) :
  NoDup (scores.*1) ->
  sum_values (list_to_map (map (fun p : Approach * Q => (p.1, c)) scores))
  = c * Z.of_nat (length scores).
Proof.
  intros Hnd.
  rewrite <- (length_fmap fst scores), <- (sum_values_const c _ Hnd).
  f_equal. f_equal. rewrite <- list_fmap_compose. reflexivity.
Qed.

Lemma normalize_split_fallback (scores : list (Approach * Q))
    (green_budget : Z) :
  scores <> [] ->
  Qeq_bool (scores_total scores) 0 = true ->
  _normalize_split scores green_budget =
  Some (list_to_map
          (map (fun p : Approach * Q =>
                  (p.1,
                   Z.min GREEN_MAX
                     (Z.max GREEN_MIN
                        (green_budget / Z.of_nat (length scores)))))
               scores)).
Proof.
  intros Hne Hz. unfold _normalize_split. rewrite Hz.
  destruct scores; [done | reflexivity].
Qed.

(** X3. When no score is positive (zeros or negatives), every approach of
    [scores] gets the same green,
    [min(GREEN_MAX, max(GREEN_MIN, green_budget // len(scores)))], and the
    greens add up to [len(scores)] times that share, not to the budget. *)
Theorem X3_equal_share_fallback (scores : list (Approach * Q))
    (green_budget : Z) :
  scores <> [] ->
  NoDup (scores.*1) ->
  Forall (fun p => (p.2 <= 0)%Q) scores ->
  let share :=
    Z.min GREEN_MAX
      (Z.max GREEN_MIN (green_budget / Z.of_nat (length scores))) in
  exists green_splits,
    _normalize_split scores green_budget = Some green_splits
    /\ (forall a, a ∈ scores.*1 -> green_splits !! a = Some share)
    /\ sum_values green_splits = share * Z.of_nat (length scores).
Proof.
  intros Hne Hnd Hall share.
  rewrite (normalize_split_fallback scores green_budget Hne
             (scores_total_no_demand scores Hall)).
  fold share. eexists. split; [reflexivity|]. split.
  - intros a Ha.
    destruct (proj2 (list_to_map_keys scores (fun _ => share) a) Ha)
      as [v Hv].
    rewrite Hv. f_equal.
    apply elem_of_list_to_map_2, list_elem_of_fmap in Hv.
    destruct Hv as [p [Hp _]]. simplify_eq. reflexivity.
  - apply sum_values_const_scores, Hnd.
Qed.

Lemma X3_equal_share_fallback_witness :
  scores_idle <> []
  /\ NoDup (scores_idle.*1)
  /\ Forall (fun p => (p.2 <= 0)%Q) scores_idle
  /\ let share :=
       Z.min GREEN_MAX
         (Z.max GREEN_MIN (10 / Z.of_nat (length scores_idle))) in
     exists green_splits,
       _normalize_split scores_idle 10 = Some green_splits
       /\ (forall a, a ∈ scores_idle.*1 -> green_splits !! a = Some share)
       /\ sum_values green_splits = share * Z.of_nat (length scores_idle).
Proof.
  assert (Hne : scores_idle <> []) by discriminate.
  assert (Hnd : NoDup (scores_idle.*1))
    by (apply (bool_decide_unpack _); reflexivity).
  assert (Hall : Forall (fun p => (p.2 <= 0)%Q) scores_idle)
    by (repeat constructor; discriminate).
  split; [exact Hne|]. split; [exact Hnd|]. split; [exact Hall|].
  exact (X3_equal_share_fallback scores_idle 10 Hne Hnd Hall).
Defined.

(** With a budget of 10 seconds the four idle approaches get 8 seconds
    each, 32 in all. *)
Example equal_share_exceeds_budget :
  sum_values <$> _normalize_split scores_idle 10 = Some 32.
Proof. vm_compute. reflexivity. Qed.

(** ** The repair loop, visit by visit *)



















(** ** Shape of the plans *)


(** ** What the snapshot contributes *)

(** X8. [compute_plan] reads the snapshot through the entries of the four
    configured approaches only: snapshots that agree on ["N"], ["E"], ["S"]
    and ["W"] give the same plan and the same post-state, whatever else
    they hold. *)
Theorem X8_only_configured_entries_read (self : State)
    (snapshot1 snapshot2 : gmap string Counts) :
  (forall a, snapshot1 !! approach_name a = snapshot2 !! approach_name a) ->
  compute_plan self snapshot1 = compute_plan self snapshot2.
Proof.
  intros Hagree. apply compute_plan_ext. intros a.
  unfold snapshot_get. rewrite Hagree. reflexivity.
Qed.

Lemma X8_only_configured_entries_read_witness :
  (forall a, snapshot_with_stranger !! approach_name a
             = snapshot_only_east !! approach_name a)
  /\ compute_plan init_state snapshot_with_stranger
     = compute_plan init_state snapshot_only_east.
Proof.
  assert (Hagree : forall a, snapshot_with_stranger !! approach_name a
                             = snapshot_only_east !! approach_name a)
    by (intros a; destruct a; reflexivity).
  split; [exact Hagree|].
  exact (X8_only_configured_entries_read init_state snapshot_with_stranger
           snapshot_only_east Hagree).
Defined.

(** ** Scores and state ranges *)










(** ** Repeated calls *)


(** ** Order of service without starvation *)






(** ** Growth with demand *)




(** ** Sustained preemption *)




(** ** Detection scripts: loops and sums *)

Lemma for_each_app {S A : Type} (body : S -> A -> option S) (s : S)
    (l1 l2 : list A) :
  for_each body s (l1 ++ l2) = s' ← for_each body s l1; for_each body s' l2.
Proof.
  revert s. induction l1 as [|x l1 IH]; intros s; simpl; [reflexivity|].
  destruct (body s x) as [s1|]; simpl; [apply IH | reflexivity].
Qed.

(** An invariant of the body that holds at the start holds at the end. *)
Lemma for_each_invariant {S A : Type} (body : S -> A -> option S)
    (Inv : S -> Prop) (items : list A) :
  (forall s x s', x ∈ items -> Inv s -> body s x = Some s' -> Inv s') ->
  forall s s', Inv s -> for_each body s items = Some s' -> Inv s'.
Proof.
  induction items as [|x items IH]; intros Hbody s s' Hs H; simpl in H.
  - simplify_eq. exact Hs.
  - destruct (body s x) as [s1|] eqn:Hx; simpl in H; [|discriminate].
    eapply IH; [| |exact H].
    + intros s2 y s3 Hy. apply Hbody. right. exact Hy.
    + eapply Hbody; [left | exact Hs | exact Hx].
Qed.

(** A body that cannot raise under the invariant makes the loop return. *)
Lemma for_each_total {S A : Type} (body : S -> A -> option S)
    (Inv : S -> Prop) (items : list A) :
  (forall s x, x ∈ items -> Inv s ->
     exists s', body s x = Some s' /\ Inv s') ->
  forall s, Inv s -> exists s', for_each body s items = Some s' /\ Inv s'.
Proof.
  induction items as [|x items IH]; intros Hbody s Hs; simpl.
  - eauto.
  - destruct (Hbody s x) as (s1 & Hx & Hs1); [left | exact Hs|].
    rewrite Hx. simpl. apply IH; [|exact Hs1].
    intros s2 y Hy. apply Hbody. right. exact Hy.
Qed.

Lemma total_of_empty : total_of ∅ = 0.
Proof. unfold total_of. apply map_fold_empty. Qed.

Lemma total_of_insert_fresh (m : gmap string Z) (k : string) (w : Z) :
  m !! k = None -> total_of (<[k := w]> m) = total_of m + w.
Proof.
  intros Hnone. unfold total_of.
  rewrite map_fold_insert_L; [reflexivity| |exact Hnone].
  intros; lia.
Qed.

Lemma total_of_insert (m : gmap string Z) (k : string) (v w : Z) :
  m !! k = Some v -> total_of (<[k := w]> m) = total_of m - v + w.
Proof.
  intros Hsome.
  rewrite <- (insert_delete_eq m k w).
  rewrite <- (insert_delete_id m k v Hsome) at 2.
  rewrite !total_of_insert_fresh by apply lookup_delete_eq.
  lia.
Qed.

Lemma zero_counts_lookup (classes : list string) (cls : string) :
  zero_counts classes !! cls
  = if decide (cls ∈ classes) then Some 0 else None.
Proof.
  unfold zero_counts. destruct (decide (cls ∈ classes)) as [Hin|Hnot].
  - destruct (list_to_map (map (fun c => (c, 0)) classes) !! cls)
      as [v|] eqn:Hv.
    + apply elem_of_list_to_map_2, list_elem_of_fmap in Hv.
      destruct Hv as [c [Hc _]]. simplify_eq. reflexivity.
    + apply not_elem_of_list_to_map_2 in Hv. exfalso. apply Hv.
      rewrite <- list_fmap_compose. rewrite list_fmap_id. exact Hin.
  - apply not_elem_of_list_to_map_1.
    rewrite <- list_fmap_compose. rewrite list_fmap_id. exact Hnot.
Qed.

Lemma total_of_zero_counts (classes : list string) :
  total_of (zero_counts classes) = 0.
Proof.
  unfold zero_counts. induction classes as [|c classes IH]; simpl.
  - apply total_of_empty.
  - fold (zero_counts classes) in *.
    destruct (zero_counts classes !! c) as [v|] eqn:Hv.
    + rewrite (total_of_insert _ _ v) by exact Hv.
      rewrite zero_counts_lookup in Hv. case_decide; simplify_eq. lia.
    + rewrite total_of_insert_fresh by exact Hv. lia.
Qed.

(** ** [vehicle_detection.py] *)

Lemma boxes_named_cons (names : gmap Z string) (cls : string) (cls_id : Z)
    (boxes : list Z) :
  boxes_named names cls (cls_id :: boxes) =
  (if decide (names !! cls_id = Some cls) then 1 else 0)
  + boxes_named names cls boxes.
Proof.
  unfold boxes_named. rewrite filter_cons.
  destruct (decide (names !! cls_id = Some cls)); simpl length; lia.
Qed.

Lemma tally_box_spec names vehicle_count cls_id vehicle_count' :
  tally_box names vehicle_count cls_id = Some vehicle_count' ->
  exists name,
    names !! cls_id = Some name
    /\ vehicle_count' =
       match vehicle_count !! name with
       | Some n => <[name := n + 1]> vehicle_count
       | None => vehicle_count
       end.
Proof.
  unfold tally_box. intros H.
  destruct (names !! cls_id) as [name|]; [|discriminate].
  exists name. split; [reflexivity|]. cbn in H.
  destruct (vehicle_count !! name); congruence.
Qed.

Lemma tally_for_each (names : gmap Z string) (boxes : list Z) :
  forall vehicle_count vehicle_count',
    for_each (tally_box names) vehicle_count boxes = Some vehicle_count' ->
    forall cls,
      vehicle_count' !! cls
      = (fun n => n + boxes_named names cls boxes) <$> vehicle_count !! cls.
Proof.
  induction boxes as [|cls_id boxes IH]; intros vc vc' H cls.
  - injection H as <-. unfold boxes_named. simpl.
    destruct (vc !! cls); simpl; [f_equal; lia | reflexivity].
  - cbn [for_each] in H.
    destruct (tally_box names vc cls_id) as [vc1|] eqn:Hbox;
      [|discriminate].
    cbn in H. rewrite (IH _ _ H cls).
    apply tally_box_spec in Hbox. destruct Hbox as (name & Hname & ->).
    rewrite boxes_named_cons, Hname.
    destruct (decide (Some name = Some cls)) as [Heq|Hne].
    + injection Heq as ->.
      destruct (vc !! cls) as [n|] eqn:Hn.
      * rewrite lookup_insert_eq. simpl. f_equal. lia.
      * rewrite Hn. reflexivity.
    + assert (Hne' : name <> cls) by congruence.
      destruct (vc !! name) as [n|] eqn:Hn.
      * rewrite lookup_insert_ne by exact Hne'.
        destruct (vc !! cls); simpl; [f_equal; lia | reflexivity].
      * destruct (vc !! cls); simpl; [f_equal; lia | reflexivity].
Qed.

Lemma tally_box_total names vehicle_count cls_id :
  is_Some (tally_box names vehicle_count cls_id)
  <-> is_Some (names !! cls_id).
Proof.
  unfold tally_box. destruct (names !! cls_id) as [name|]; cbn.
  - destruct (vehicle_count !! name); split; eauto.
  - split; intros [? ?]; discriminate.
Qed.

Lemma tally_for_each_total (names : gmap Z string) (boxes : list Z) :
  forall vehicle_count,
    is_Some (for_each (tally_box names) vehicle_count boxes)
    <-> Forall (fun cls_id => is_Some (names !! cls_id)) boxes.
Proof.
  induction boxes as [|cls_id boxes IH]; intros vc.
  - split; [constructor | simpl; eauto].
  - cbn [for_each]. rewrite Forall_cons, <- (tally_box_total names vc).
    destruct (tally_box names vc cls_id) as [vc1|]; cbn.
    + rewrite IH. split; [eauto | tauto].
    + split; [intros [? ?]; discriminate | intros [[? ?] _]; discriminate].
Qed.

(** X15. The tally of a frame raises exactly when some box has a class id
    missing from [model.names]; otherwise it holds, for each of the five
    vehicle classes, the number of boxes of the frame with that class name,
    and no entry for any other class. *)
Theorem X15_frame_tally (names : gmap Z string) (boxes : list Z) :
  (is_Some (tally_frame names boxes)
   <-> Forall (fun cls_id => is_Some (names !! cls_id)) boxes)
  /\ forall vehicle_count,
       tally_frame names boxes = Some vehicle_count ->
       forall cls,
         vehicle_count !! cls
         = if decide (cls ∈ vehicle_classes)
           then Some (boxes_named names cls boxes) else None.
Proof.
  split; [apply tally_for_each_total|].
  intros vc H cls. unfold tally_frame in H.
  rewrite (tally_for_each _ _ _ _ H cls), zero_counts_lookup.
  case_decide; reflexivity.
Qed.

(** ** [vehicle_detection_v0.01.py] *)

Lemma for_each_is_Some_iff {S A : Type} (body : S -> A -> option S)
    (Inv : S -> Prop) (P : A -> Prop) (items : list A) :
  (forall s x, Inv s -> (is_Some (body s x) <-> P x)) ->
  (forall s x s', Inv s -> body s x = Some s' -> Inv s') ->
  forall s, Inv s -> (is_Some (for_each body s items) <-> Forall P items).
Proof.
  intros Hraise Hinv.
  induction items as [|x items IH]; intros s Hs.
  - split; [constructor | simpl; eauto].
  - cbn [for_each]. rewrite Forall_cons, <- (Hraise s x Hs).
    destruct (body s x) as [s1|] eqn:Hx; cbn.
    + rewrite (IH s1 (Hinv _ _ _ Hs Hx)). split; [eauto | tauto].
    + split; [intros [? ?]; discriminate | intros [[? ?] _]; discriminate].
Qed.

Lemma for_each_inv {S A : Type} (body : S -> A -> option S)
    (Inv : S -> Prop) (items : list A) :
  (forall s x s', Inv s -> body s x = Some s' -> Inv s') ->
  forall s s', Inv s -> for_each body s items = Some s' -> Inv s'.
Proof.
  intros Hinv. apply for_each_invariant. intros s x s' _. apply Hinv.
Qed.

Lemma midline_init_inv : midline_inv midline_init.
Proof.
  unfold midline_inv, midline_init.
  cbn [total_vehicle_count prev_positions csv_rows].
  split; [apply total_of_zero_counts|]. split; [|split].
  - intros cls. rewrite zero_counts_lookup.
    destruct (decide (cls ∈ vehicle_classes)) as [Hin|Hnot].
    + split; eauto.
    + split; [intros [? ?]; discriminate | contradiction].
  - intros cls n. rewrite zero_counts_lookup.
    destruct (decide (cls ∈ vehicle_classes)); intros Hn;
      [injection Hn as <-; lia | discriminate].
  - constructor.
Qed.

(** What one box does to the state: it raises on an unknown class id only;
    otherwise it leaves the counts and the rows alone, or it adds one to the
    count of a vehicle class and writes the row of the new count. *)
Lemma midline_box_cases names frame_height st box :
  midline_inv st ->
  match midline_box names frame_height st box with
  | None => names !! tb_cls box = None
  | Some st' =>
      is_Some (names !! tb_cls box)
      /\ ((total_vehicle_count st' = total_vehicle_count st
           /\ csv_rows st' = csv_rows st)
          \/ exists cls n,
               cls ∈ vehicle_classes
               /\ total_vehicle_count st !! cls = Some n
               /\ total_vehicle_count st'
                  = <[cls := n + 1]> (total_vehicle_count st)
               /\ csv_rows st' = csv_rows st ++ [(cls, n + 1)])
  end.
Proof.
  intros (_ & Hkeys & _ & _). unfold midline_box.
  destruct (names !! tb_cls box) as [cls_name|]; cbn; [|reflexivity].
  case_bool_decide as Hcls; [|split; [eauto | left; split; reflexivity]].
  destruct (tb_id box) as [obj_id|];
    [|split; [eauto | left; split; reflexivity]].
  destruct (prev_positions st !! obj_id) as [prev|]; cbn;
    [|split; [eauto | left; split; reflexivity]].
  destruct (prev + 5 <? tb_y_center box); cbn;
    [|split; [eauto | left; split; reflexivity]].
  destruct ((prev <? frame_height `div` 2)
            && (frame_height `div` 2 <=? tb_y_center box)); cbn;
    [|split; [eauto | left; split; reflexivity]].
  destruct (proj2 (Hkeys cls_name) Hcls) as [n Hn]. rewrite Hn. cbn.
  split; [eauto|]. right. exists cls_name, n. auto.
Qed.

Lemma midline_box_inv names frame_height st box st' :
  midline_inv st ->
  midline_box names frame_height st box = Some st' ->
  midline_inv st'.
Proof.
  intros Hinv Hbox.
  pose proof (midline_box_cases names frame_height st box Hinv) as Hcases.
  rewrite Hbox in Hcases.
  destruct Hinv as (Htotal & Hkeys & Hpos & Hrows).
  destruct Hcases as [_ [[Hc Hr]|(cls & n & Hcls & Hn & Hc & Hr)]].
  - unfold midline_inv. rewrite Hc, Hr. auto.
  - unfold midline_inv. rewrite Hc, Hr.
    split; [|split; [|split]].
    + rewrite (total_of_insert _ _ n) by exact Hn.
      rewrite length_app. simpl. lia.
    + intros c. rewrite lookup_insert_is_Some. rewrite Hkeys.
      destruct (decide (cls = c)) as [<-|Hne]; [tauto|].
      split; [intros [?|[_ ?]]; [contradiction | assumption] | auto].
    + intros c m. destruct (decide (cls = c)) as [<-|Hne].
      * rewrite lookup_insert_eq. intros Hm. injection Hm as <-.
        specialize (Hpos cls n Hn). lia.
      * rewrite lookup_insert_ne by exact Hne. apply Hpos.
    + apply Forall_app. split; [exact Hrows|].
      constructor; [|constructor]. simpl. split; [exact Hcls|].
      specialize (Hpos cls n Hn). lia.
Qed.

Lemma midline_box_raises names frame_height st box :
  midline_inv st ->
  is_Some (midline_box names frame_height st box)
  <-> is_Some (names !! tb_cls box).
Proof.
  intros Hinv.
  pose proof (midline_box_cases names frame_height st box Hinv) as Hcases.
  destruct (midline_box names frame_height st box) as [st'|].
  - split; [intros _; apply Hcases | eauto].
  - rewrite Hcases. split; intros [? ?]; discriminate.
Qed.

Lemma midline_frame_inv names st frame st' :
  midline_inv st -> midline_frame names st frame = Some st' ->
  midline_inv st'.
Proof.
  unfold midline_frame. intros Hinv.
  apply (for_each_inv _ midline_inv); [|exact Hinv].
  intros s x s'. apply midline_box_inv.
Qed.

Lemma midline_frame_raises names st frame :
  midline_inv st ->
  is_Some (midline_frame names st frame)
  <-> Forall (fun box => is_Some (names !! tb_cls box)) frame.2.
Proof.
  unfold midline_frame. intros Hinv.
  apply (for_each_is_Some_iff _ midline_inv); [| |exact Hinv].
  - intros s x. apply midline_box_raises.
  - intros s x s'. apply midline_box_inv.
Qed.

(** X16. The mid-line counter raises exactly when some box of some frame
    has a class id missing from [model.names].  When it returns, the counts
    add up to the number of rows written after the header, they are kept
    for the five vehicle classes only and are never negative, and every row
    names a vehicle class with a count of at least one. *)
Theorem X16_midline_counts_match_rows (names : gmap Z string)
    (frames : list (Z * list TrackedBox)) :
  (is_Some (midline_run names frames)
   <-> Forall (fun frame =>
                 Forall (fun box => is_Some (names !! tb_cls box)) frame.2)
              frames)
  /\ forall st,
       midline_run names frames = Some st ->
       total_of (total_vehicle_count st) = Z.of_nat (length (csv_rows st))
       /\ (forall cls,
             is_Some (total_vehicle_count st !! cls)
             <-> cls ∈ vehicle_classes)
       /\ (forall cls n, total_vehicle_count st !! cls = Some n -> 0 <= n)
       /\ Forall (fun row => row.1 ∈ vehicle_classes /\ 1 <= row.2)
                 (csv_rows st).
Proof.
  unfold midline_run. split.
  - apply (for_each_is_Some_iff _ midline_inv);
      [| |exact midline_init_inv].
    + intros s x. apply midline_frame_raises.
    + intros s x s'. apply midline_frame_inv.
  - intros st H.
    apply (for_each_inv _ midline_inv _
             (fun s x s' => midline_frame_inv names s x s')
             _ _ midline_init_inv H).
Qed.

(** The car of the sample frames is counted once, when it passes [y = 50]. *)
Example sample_midline_count :
  (fun st => (total_vehicle_count st !! "car", csv_rows st,
              prev_positions st !! 1))
    <$> midline_run sample_names sample_midline_frames
  = Some (Some 1, [("car", 1)], Some 55).
Proof. vm_compute. reflexivity. Qed.

(** ** [vehicle_detection_v0.02.py] *)

Lemma line_classes_spec (cls_id : Z) (name : string) :
  line_classes !! cls_id = Some name
  <-> (cls_id = 2 /\ name = "car") \/ (cls_id = 3 /\ name = "motorbike")
      \/ (cls_id = 5 /\ name = "bus") \/ (cls_id = 7 /\ name = "truck").
Proof.
  unfold line_classes.
  rewrite !lookup_insert_Some, lookup_singleton_Some. split.
  - intros [[? ?]|[_ [[? ?]|[_ [[? ?]|[_ [? ?]]]]]]]; subst; tauto.
  - intros [[-> ->]|[[-> ->]|[[-> ->]|[-> ->]]]].
    + left. tauto.
    + right. split; [lia|]. left. tauto.
    + right. split; [lia|]. right. split; [lia|]. left. tauto.
    + right. split; [lia|]. right. split; [lia|]. right. split; [lia|]. tauto.
Qed.

Lemma line_classes_None (cls_id : Z) :
  line_classes !! cls_id = None <-> cls_id ∉ [2; 3; 5; 7].
Proof.
  rewrite !not_elem_of_cons. split.
  - intros Hnone.
    repeat split; try (intros ->; vm_compute in Hnone; discriminate).
    apply not_elem_of_nil.
  - intros (H2 & H3 & H5 & H7 & _).
    destruct (line_classes !! cls_id) as [name|] eqn:Hname; [|reflexivity].
    apply line_classes_spec in Hname.
    destruct Hname as [[? _]|[[? _]|[[? _]|[? _]]]]; contradiction.
Qed.

Lemma line_classes_name (cls_id : Z) (name : string) :
  line_classes !! cls_id = Some name ->
  name ∈ ["car"; "motorbike"; "bus"; "truck"].
Proof.
  intros H. apply line_classes_spec in H.
  destruct H as [[_ ->]|[[_ ->]|[[_ ->]|[_ ->]]]]; set_solver.
Qed.

Lemma line_init_inv : line_inv line_init.
Proof.
  unfold line_inv, line_init.
  cbn [vehicle_count counted_ids log_rows].
  split; [rewrite total_of_zero_counts, size_empty; reflexivity|].
  split; [rewrite size_empty; reflexivity|]. split.
  - intros cls. rewrite zero_counts_lookup.
    destruct (decide (cls ∈ ["car"; "motorbike"; "bus"; "truck"]))
      as [Hin|Hnot].
    + split; eauto.
    + split; [intros [? ?]; discriminate | contradiction].
  - intros cls n. rewrite zero_counts_lookup.
    destruct (decide (cls ∈ ["car"; "motorbike"; "bus"; "truck"]));
      intros Hn; [injection Hn as <-; lia | discriminate].
Qed.

(** What one box does to the state. *)
Lemma line_box_cases line_y st box :
  line_inv st ->
  let cy := (lb_y1 box + lb_y2 box) / 2 in
  let fresh := line_y - 5 < cy < line_y + 5
               /\ lb_track_id box ∉ counted_ids st in
  match line_box line_y st box with
  | None => fresh /\ line_classes !! lb_cls box = None
  | Some st' =>
      (~ fresh /\ st' = st)
      \/ (fresh
          /\ exists cls n,
               line_classes !! lb_cls box = Some cls
               /\ vehicle_count st !! cls = Some n
               /\ st' = mkLineState
                          (<[cls := n + 1]> (vehicle_count st))
                          ({[ lb_track_id box ]} ∪ counted_ids st)
                          (log_rows st ++ [(lb_stamp box, cls, n + 1)]))
  end.
Proof.
  intros (_ & _ & Hkeys & _) cy fresh. unfold line_box. fold cy.
  destruct ((line_y - 5 <? cy) && (cy <? line_y + 5)) eqn:Hband.
  - apply andb_true_iff in Hband. rewrite !Z.ltb_lt in Hband.
    case_bool_decide as Hid.
    + destruct (line_classes !! lb_cls box) as [cls|] eqn:Hcls; cbn.
      * destruct (proj2 (Hkeys cls) (line_classes_name _ _ Hcls))
          as [n Hn].
        rewrite Hn. cbn. right. split; [split; [lia | exact Hid]|].
        exists cls, n. auto.
      * split; [split; [lia | exact Hid] | reflexivity].
    + left. split; [intros [_ ?]; contradiction | reflexivity].
  - apply andb_false_iff in Hband. rewrite !Z.ltb_ge in Hband.
    left. split; [intros [? _]; lia | reflexivity].
Qed.

Lemma line_box_inv line_y st box st' :
  line_inv st -> line_box line_y st box = Some st' -> line_inv st'.
Proof.
  intros Hinv Hbox.
  pose proof (line_box_cases line_y st box Hinv) as Hcases.
  cbv zeta in Hcases. rewrite Hbox in Hcases.
  destruct Hcases as [[_ ->]|([_ Hid] & cls & n & Hcls & Hn & ->)];
    [exact Hinv|].
  destruct Hinv as (Htotal & Hrows & Hkeys & Hpos).
  unfold line_inv. cbn [vehicle_count counted_ids log_rows].
  assert (Hsize : size ({[lb_track_id box]} ∪ counted_ids st)
                  = S (size (counted_ids st))).
  { rewrite size_union by (apply disjoint_singleton_l; exact Hid).
    rewrite size_singleton. reflexivity. }
  rewrite Hsize. split; [|split; [|split]].
  - rewrite (total_of_insert _ _ n) by exact Hn. lia.
  - rewrite length_app. simpl. lia.
  - intros c. rewrite lookup_insert_is_Some. rewrite Hkeys.
    destruct (decide (cls = c)) as [<-|Hne].
    + pose proof (line_classes_name _ _ Hcls). tauto.
    + split; [intros [?|[_ ?]]; [contradiction | assumption] | auto].
  - intros c m. destruct (decide (cls = c)) as [<-|Hne].
    + rewrite lookup_insert_eq. intros Hm. injection Hm as <-.
      specialize (Hpos cls n Hn). lia.
    + rewrite lookup_insert_ne by exact Hne. apply Hpos.
Qed.

Lemma line_frame_inv line_y st frame st' :
  line_inv st -> line_frame line_y st frame = Some st' -> line_inv st'.
Proof.
  unfold line_frame. intros Hinv. destruct frame as [boxes|].
  - apply (for_each_inv _ line_inv); [|exact Hinv].
    intros s x s'. apply line_box_inv.
  - intros H. injection H as <-. exact Hinv.
Qed.

Lemma line_run_inv line_y frames st :
  line_run line_y frames = Some st -> line_inv st.
Proof.
  unfold line_run. intros H.
  apply (for_each_inv _ line_inv _
           (fun s x s' => line_frame_inv line_y s x s')
           _ _ line_init_inv H).
Qed.

(** X17. Whatever the frames, when the line counter returns it has counted
    each track id once at most: the counts add up to the number of counted
    ids, which is also the number of rows written after the header; the
    counts are kept for the four vehicle classes only and are never
    negative. *)
Theorem X17_line_counts_once_per_track (line_y : Z)
    (frames : list (option (list LineBox))) (st : LineState) :
  line_run line_y frames = Some st ->
  total_of (vehicle_count st) = Z.of_nat (size (counted_ids st))
  /\ length (log_rows st) = size (counted_ids st)
  /\ (forall cls,
        is_Some (vehicle_count st !! cls)
        <-> cls ∈ ["car"; "motorbike"; "bus"; "truck"])
  /\ (forall cls n, vehicle_count st !! cls = Some n -> 0 <= n).
Proof. intros H. exact (line_run_inv line_y frames st H). Qed.

Lemma X17_line_counts_once_per_track_witness :
  exists st,
    line_run 300 sample_line_frames = Some st
    /\ total_of (vehicle_count st) = Z.of_nat (size (counted_ids st))
    /\ length (log_rows st) = size (counted_ids st)
    /\ (forall cls,
          is_Some (vehicle_count st !! cls)
          <-> cls ∈ ["car"; "motorbike"; "bus"; "truck"])
    /\ (forall cls n, vehicle_count st !! cls = Some n -> 0 <= n).
Proof.
  assert (Hrun : is_Some (line_run 300 sample_line_frames))
    by (vm_compute; eauto).
  destruct Hrun as [st Hrun]. exists st. split; [exact Hrun|].
  exact (X17_line_counts_once_per_track 300 sample_line_frames st Hrun).
Defined.

(** The car of the sample frames is on the line twice and counted once. *)
Example sample_line_count :
  (fun st => (vehicle_count st !! "car", elements (counted_ids st),
              log_rows st))
    <$> line_run 300 sample_line_frames
  = Some (Some 1, [4], [("t1", "car", 1)]).
Proof. vm_compute. reflexivity. Qed.

(** X18. In a state the line counter has reached, a box raises (the lookup
    [vehicle_classes[cls_id]]) exactly when its centre is strictly within
    five pixels of the line, its track id has not been counted, and its
    class id is none of 2, 3, 5 and 7. *)
Theorem X18_line_box_raises (line_y : Z)
    (frames : list (option (list LineBox))) (st : LineState)
    (box : LineBox) :
  line_run line_y frames = Some st ->
  line_box line_y st box = None
  <-> ((line_y - 5 < (lb_y1 box + lb_y2 box) / 2 < line_y + 5)
       /\ (lb_track_id box ∉ counted_ids st)
       /\ (lb_cls box ∉ [2; 3; 5; 7])).
Proof.
  intros Hrun. apply line_run_inv in Hrun.
  pose proof (line_box_cases line_y st box Hrun) as Hcases.
  cbv zeta in Hcases. rewrite <- line_classes_None.
  destruct (line_box line_y st box) as [st'|].
  - split; [discriminate|]. intros (Hband & Hid & Hcls).
    destruct Hcases as [[Hnot _]|(_ & cls & n & Hsome & _)].
    + exfalso. apply Hnot. split; assumption.
    + congruence.
  - split; [intros _; tauto | reflexivity].
Qed.

Lemma X18_line_box_raises_witness :
  exists st,
    line_run 300 sample_line_frames = Some st
    /\ (line_box 300 st (mkLineBox 1 8 0 296 10 304 "t4") = None
        <-> ((300 - 5
              < (lb_y1 (mkLineBox 1 8 0 296 10 304 "t4")
                 + lb_y2 (mkLineBox 1 8 0 296 10 304 "t4")) / 2
              < 300 + 5)
             /\ (lb_track_id (mkLineBox 1 8 0 296 10 304 "t4")
                 ∉ counted_ids st)
             /\ (lb_cls (mkLineBox 1 8 0 296 10 304 "t4")
                 ∉ [2; 3; 5; 7]))).
Proof.
  assert (Hrun : is_Some (line_run 300 sample_line_frames))
    by (vm_compute; eauto).
  destruct Hrun as [st Hrun]. exists st. split; [exact Hrun|].
  exact (X18_line_box_raises 300 sample_line_frames st
           (mkLineBox 1 8 0 296 10 304 "t4") Hrun).
Defined.

Lemma line_box_total line_y st box :
  line_inv st -> lb_cls box ∈ [2; 3; 5; 7] ->
  exists st', line_box line_y st box = Some st' /\ line_inv st'.
Proof.
  intros Hinv Hcls.
  pose proof (line_box_cases line_y st box Hinv) as Hcases.
  cbv zeta in Hcases.
  destruct (line_box line_y st box) as [st'|] eqn:Hbox.
  - exists st'. split; [reflexivity|].
    exact (line_box_inv line_y st box st' Hinv Hbox).
  - destruct Hcases as [_ Hnone].
    apply line_classes_None in Hnone. contradiction.
Qed.

(** X19. The tracker is asked for the classes 2, 3, 5 and 7 only
    ([classes=list(vehicle_classes.keys())]); on frames whose boxes all
    have one of these classes the line counter never raises. *)
Theorem X19_line_run_returns_on_filtered_classes (line_y : Z)
    (frames : list (option (list LineBox))) :
  Forall (fun frame =>
            forall boxes, frame = Some boxes ->
              Forall (fun box => lb_cls box ∈ [2; 3; 5; 7]) boxes)
         frames ->
  is_Some (line_run line_y frames).
Proof.
  intros Hframes. unfold line_run.
  destruct (for_each_total (line_frame line_y) line_inv frames)
    with (s := line_init) as (st & Hst & _);
    [|exact line_init_inv | eauto].
  intros s frame Hin Hs.
  rewrite Forall_forall in Hframes. specialize (Hframes frame Hin).
  destruct frame as [boxes|]; cbn [line_frame]; [|eauto].
  specialize (Hframes boxes eq_refl).
  apply for_each_total; [|exact Hs].
  intros s1 box Hbox Hs1. apply line_box_total; [exact Hs1|].
  rewrite Forall_forall in Hframes. exact (Hframes box Hbox).
Qed.

Lemma X19_line_run_returns_on_filtered_classes_witness :
  Forall (fun frame =>
            forall boxes, frame = Some boxes ->
              Forall (fun box => lb_cls box ∈ [2; 3; 5; 7]) boxes)
         sample_line_frames
  /\ is_Some (line_run 300 sample_line_frames).
Proof.
  assert (Hframes :
    Forall (fun frame =>
              forall boxes, frame = Some boxes ->
                Forall (fun box => lb_cls box ∈ [2; 3; 5; 7]) boxes)
           sample_line_frames).
  { unfold sample_line_frames.
    repeat (apply List.Forall_cons || apply List.Forall_nil);
      intros boxes Hboxes; [| discriminate |];
      injection Hboxes as <-;
      repeat (apply List.Forall_cons || apply List.Forall_nil);
      cbn [lb_cls]; apply (bool_decide_unpack _); reflexivity. }
  split; [exact Hframes|].
  exact (X19_line_run_returns_on_filtered_classes 300 sample_line_frames
           Hframes).
Defined.

(** ** The rows of the logs *)

Lemma counts_written_snoc cls rows c n :
  counts_written cls (rows ++ [(c, n)])
  = counts_written cls rows ++ (if decide (c = cls) then [n] else []).
Proof.
  unfold counts_written. rewrite filter_app, fmap_app. f_equal.
  rewrite filter_cons, filter_nil. cbn [fst].
  destruct (decide (c = cls)); reflexivity.
Qed.

Lemma running_counts_init (classes : list string) :
  running_counts (zero_counts classes) [].
Proof.
  intros cls. rewrite zero_counts_lookup.
  destruct (decide (cls ∈ classes)); reflexivity.
Qed.

Lemma running_counts_step counts rows c n :
  running_counts counts rows -> counts !! c = Some n -> 0 <= n ->
  running_counts (<[c := n + 1]> counts) (rows ++ [(c, n + 1)]).
Proof.
  intros Hrun Hn Hpos cls. rewrite counts_written_snoc, (Hrun cls).
  destruct (decide (c = cls)) as [<-|Hne].
  - rewrite lookup_insert_eq, Hn.
    change (seqZ 1 n ++ [n + 1] = seqZ 1 (n + 1)).
    rewrite (seqZ_app 1 n 1) by lia. f_equal.
    unfold seqZ. simpl. f_equal. lia.
  - rewrite lookup_insert_ne by exact Hne. apply app_nil_r.
Qed.

Lemma running_counts_last counts rows cls n :
  running_counts counts rows -> counts !! cls = Some n -> 0 < n ->
  last (counts_written cls rows) = Some n.
Proof.
  intros Hrun Hn Hpos. rewrite (Hrun cls), Hn.
  change (last (seqZ 1 n) = Some n).
  replace n with ((n - 1) + 1) at 1 by lia.
  rewrite (seqZ_app 1 (n - 1) 1) by lia.
  unfold seqZ at 2. simpl. rewrite last_snoc. f_equal. lia.
Qed.

Lemma midline_box_running names frame_height st box st' :
  midline_inv st /\ running_counts (total_vehicle_count st) (csv_rows st) ->
  midline_box names frame_height st box = Some st' ->
  midline_inv st'
  /\ running_counts (total_vehicle_count st') (csv_rows st').
Proof.
  intros [Hinv Hrun] Hbox.
  split; [exact (midline_box_inv _ _ _ _ _ Hinv Hbox)|].
  pose proof (midline_box_cases names frame_height st box Hinv) as Hcases.
  rewrite Hbox in Hcases.
  destruct Hcases as [_ [[Hc Hr]|(cls & n & _ & Hn & Hc & Hr)]];
    rewrite Hc, Hr; [exact Hrun|].
  destruct Hinv as (_ & _ & Hpos & _).
  apply running_counts_step; [exact Hrun | exact Hn | exact (Hpos _ _ Hn)].
Qed.

Lemma midline_run_running names frames st :
  midline_run names frames = Some st ->
  midline_inv st /\ running_counts (total_vehicle_count st) (csv_rows st).
Proof.
  unfold midline_run.
  apply (for_each_inv _
           (fun s => midline_inv s
                     /\ running_counts (total_vehicle_count s) (csv_rows s))).
  - intros s frame s' Hs. unfold midline_frame.
    apply (for_each_inv _
             (fun s => midline_inv s
                       /\ running_counts (total_vehicle_count s)
                                         (csv_rows s))); [|exact Hs].
    intros s1 box s2. apply midline_box_running.
  - split; [exact midline_init_inv | apply running_counts_init].
Qed.

(** X20. The rows written by the mid-line counter show running totals: for
    every class the counts in its rows are 1, 2, ..., up to the final count
    of the class, in this order; so the last row of a counted class shows
    its final count. *)
Theorem X20_midline_rows_running_totals (names : gmap Z string)
    (frames : list (Z * list TrackedBox)) (st : MidlineState) :
  midline_run names frames = Some st ->
  (forall cls,
     counts_written cls (csv_rows st)
     = seqZ 1 (default 0 (total_vehicle_count st !! cls)))
  /\ (forall cls n,
        total_vehicle_count st !! cls = Some n -> 0 < n ->
        last (counts_written cls (csv_rows st)) = Some n).
Proof.
  intros Hrun. apply midline_run_running in Hrun as [_ Hrun].
  split; [exact Hrun|].
  intros cls n. apply running_counts_last. exact Hrun.
Qed.

Lemma X20_midline_rows_running_totals_witness :
  exists st,
    midline_run sample_names sample_midline_frames = Some st
    /\ (forall cls,
          counts_written cls (csv_rows st)
          = seqZ 1 (default 0 (total_vehicle_count st !! cls)))
    /\ (forall cls n,
          total_vehicle_count st !! cls = Some n -> 0 < n ->
          last (counts_written cls (csv_rows st)) = Some n).
Proof.
  assert (Hrun : is_Some (midline_run sample_names sample_midline_frames))
    by (vm_compute; eauto).
  destruct Hrun as [st Hrun]. exists st. split; [exact Hrun|].
  exact (X20_midline_rows_running_totals sample_names sample_midline_frames
           st Hrun).
Defined.

Lemma line_box_running line_y st box st' :
  line_inv st /\ running_counts (vehicle_count st) (log_counts st) ->
  line_box line_y st box = Some st' ->
  line_inv st' /\ running_counts (vehicle_count st') (log_counts st').
Proof.
  intros [Hinv Hrun] Hbox.
  split; [exact (line_box_inv _ _ _ _ Hinv Hbox)|].
  pose proof (line_box_cases line_y st box Hinv) as Hcases.
  cbv zeta in Hcases. rewrite Hbox in Hcases.
  destruct Hcases as [[_ ->]|(_ & cls & n & _ & Hn & ->)]; [exact Hrun|].
  unfold log_counts. cbn [vehicle_count log_rows].
  rewrite fmap_app. cbn [fmap list_fmap fst snd].
  destruct Hinv as (_ & _ & _ & Hpos).
  apply running_counts_step; [exact Hrun | exact Hn | exact (Hpos _ _ Hn)].
Qed.

Lemma line_run_running line_y frames st :
  line_run line_y frames = Some st ->
  line_inv st /\ running_counts (vehicle_count st) (log_counts st).
Proof.
  unfold line_run.
  apply (for_each_inv _
           (fun s => line_inv s
                     /\ running_counts (vehicle_count s) (log_counts s))).
  - intros s frame s' Hs. destruct frame as [boxes|]; cbn [line_frame].
    + apply (for_each_inv _
               (fun s => line_inv s
                         /\ running_counts (vehicle_count s) (log_counts s)));
        [|exact Hs].
      intros s1 box s2. apply line_box_running.
    + intros H. injection H as <-. exact Hs.
  - split; [exact line_init_inv | apply running_counts_init].
Qed.

(** X21. The rows written by the line counter show running totals as well:
    for every class the cumulative counts in its rows are 1, 2, ..., up to
    the final count of the class, in this order; so the last row of a
    counted class shows its final count. *)
Theorem X21_line_rows_running_totals (line_y : Z)
    (frames : list (option (list LineBox))) (st : LineState) :
  line_run line_y frames = Some st ->
  (forall cls,
     counts_written cls (log_counts st)
     = seqZ 1 (default 0 (vehicle_count st !! cls)))
  /\ (forall cls n,
        vehicle_count st !! cls = Some n -> 0 < n ->
        last (counts_written cls (log_counts st)) = Some n).
Proof.
  intros Hrun. apply line_run_running in Hrun as [_ Hrun].
  split; [exact Hrun|].
  intros cls n. apply running_counts_last. exact Hrun.
Qed.

Lemma X21_line_rows_running_totals_witness :
  exists st,
    line_run 300 sample_line_frames = Some st
    /\ (forall cls,
          counts_written cls (log_counts st)
          = seqZ 1 (default 0 (vehicle_count st !! cls)))
    /\ (forall cls n,
          vehicle_count st !! cls = Some n -> 0 < n ->
          last (counts_written cls (log_counts st)) = Some n).
Proof.
  assert (Hrun : is_Some (line_run 300 sample_line_frames))
    by (vm_compute; eauto).
  destruct Hrun as [st Hrun]. exists st. split; [exact Hrun|].
  exact (X21_line_rows_running_totals 300 sample_line_frames st Hrun).
Defined.

(** ** The controller in binary64 arithmetic *)

Section Binary64Numbers.

Lemma b64_float_of_int_spec (z : Z) :
  B64.float_of_int z = if B64.fits z then B64.Ok (B64.float_of_Z z) else B64.Raise B64.OverflowError.
Proof.
  unfold B64.float_of_int, B64.fits. destruct (B64.float_of_Z z); reflexivity.
Qed.

Lemma b64_score_spec (c : Counts) :
  B64._score c
  = if B64.counts_fit c
    then B64.Ok (B64.fadd (B64.fadd (B64.fadd (B64.fmul B64.WEIGHTS_car (B64.float_of_Z (car c)))
                              (B64.fmul B64.WEIGHTS_motorbike
                                    (B64.float_of_Z (motorbike c))))
                        (B64.fmul B64.WEIGHTS_truck (B64.float_of_Z (truck c))))
                  (B64.fmul B64.WEIGHTS_bus (B64.float_of_Z (bus c))))
    else B64.Raise B64.OverflowError.
Proof.
  unfold B64._score, B64.counts_fit. rewrite !b64_float_of_int_spec.
  destruct (B64.fits (car c)); [|reflexivity].
  destruct (B64.fits (motorbike c)); [|reflexivity].
  destruct (B64.fits (truck c)); [|reflexivity].
  destruct (B64.fits (bus c)); reflexivity.
Qed.

Lemma b64_score_raises (c : Counts) (e : B64.PyError) :
  B64._score c = B64.Raise e -> e = B64.OverflowError.
Proof.
  rewrite b64_score_spec. destruct (B64.counts_fit c); congruence.
Qed.

Lemma b64_raw_scores_spec (snapshot : gmap string Counts) :
  match B64.raw_scores_of snapshot with
  | B64.Ok raw_scores =>
      forall a, B64._score (snapshot_get snapshot a) = B64.Ok (raw_scores a)
  | B64.Raise e =>
      e = B64.OverflowError
      /\ exists a, B64._score (snapshot_get snapshot a) = B64.Raise B64.OverflowError
  end.
Proof.
  unfold B64.raw_scores_of.
  destruct (B64._score (snapshot_get snapshot North)) as [n|e] eqn:Hn; cbn.
  2:{ pose proof (b64_score_raises _ _ Hn) as ->. eauto. }
  destruct (B64._score (snapshot_get snapshot East)) as [x|e] eqn:He; cbn.
  2:{ pose proof (b64_score_raises _ _ He) as ->. eauto. }
  destruct (B64._score (snapshot_get snapshot South)) as [s|e] eqn:Hs; cbn.
  2:{ pose proof (b64_score_raises _ _ Hs) as ->. eauto. }
  destruct (B64._score (snapshot_get snapshot West)) as [w|e] eqn:Hw; cbn.
  2:{ pose proof (b64_score_raises _ _ Hw) as ->. eauto. }
  intros a; destruct a; assumption.
Qed.

Lemma b64_fifty_nonzero : B64.is_zero (B64.float_of_Z 50) = false.
Proof. reflexivity. Qed.

Lemma b64_int_of_finite (s : bool) (m : positive) (e : Z) :
  B64.int_of_float (S754_finite s m e)
  = B64.Ok (int_of_float (B64.float_value (S754_finite s m e))).
Proof. reflexivity. Qed.

(** The clamp of the cycle on a rational [v]: what is left is an [int] or
    [v] itself strictly between the two limits. *)
Lemma b64_clamp_cases (v : Q) :
  (if Qltb v (inject_Z 120)
   then if Qltb (inject_Z 60) v then int_of_float v else 60
   else 120)
  = clamp 60 120 (Qfloor v).
Proof.
  unfold clamp.
  destruct (Qltb v (inject_Z 120)) eqn:Hhi.
  - apply Qltb_lt in Hhi. pose proof (Qfloor_lt 120 _ Hhi).
    destruct (Qltb (inject_Z 60) v) eqn:Hlo.
    + apply Qltb_lt in Hlo.
      assert (Hpos : (0 <= v)%Q).
      { apply Qlt_le_weak. eapply Qle_lt_trans; [|exact Hlo]. discriminate. }
      rewrite (int_of_float_nonneg _ Hpos).
      pose proof (Qfloor_ge 60 _ (Qlt_le_weak _ _ Hlo)). lia.
    + apply Qltb_ge in Hlo.
      assert (Qfloor v <= 60); [|lia].
      destruct (Z_le_gt_dec (Qfloor v) 60) as [?|Hgt]; [assumption|exfalso].
      assert (H61 : (inject_Z 61 <= v)%Q).
      { eapply Qle_trans; [|apply Qfloor_le]. rewrite <- Zle_Qle. lia. }
      assert ((inject_Z 61 <= inject_Z 60)%Q) as Habs
        by (eapply Qle_trans; eassumption).
      rewrite <- Zle_Qle in Habs. lia.
  - apply Qltb_ge in Hhi. pose proof (Qfloor_ge 120 _ Hhi). lia.
Qed.

(** The cycle never raises, and is the clamped floor of its estimate. *)
Lemma b64_cycle_of_spec (congestion : B64.float) :
  B64.cycle_of congestion = B64.Ok (B64.clamped_floor (B64.cycle_estimate congestion))
  /\ CYCLE_MIN <= B64.clamped_floor (B64.cycle_estimate congestion) <= CYCLE_MAX.
Proof.
  unfold B64.cycle_of, B64.fdiv. rewrite b64_fifty_nonzero. cbn [mbind B64.Result_bind].
  fold (B64.cycle_estimate congestion).
  generalize (B64.cycle_estimate congestion). intros x.
  unfold B64.clamped_floor, CYCLE_MIN, CYCLE_MAX.
  destruct x as [s| [|] | |s m e];
    try (split; [reflexivity | unfold clamp; cbn; lia]).
  rewrite <- b64_clamp_cases.
  set (x := S754_finite s m e).
  assert (Hx : B64.num_value (B64.Float x) = B64.Xreal (B64.float_value x))
    by reflexivity.
  assert (Hint : B64.int_of_num (B64.Float x)
                 = B64.Ok (int_of_float (B64.float_value x)))
    by reflexivity.
  clearbody x. revert Hx Hint.
  generalize (B64.float_value x). intros v Hx Hint.
  unfold B64.py_min, B64.num_lt. rewrite Hx.
  cbn [B64.num_value B64.xreal_lt].
  pose proof (b64_clamp_cases v) as Hc.
  destruct (Qltb v (inject_Z 120)) eqn:Hhi.
  - unfold B64.py_max, B64.num_lt. rewrite Hx.
    cbn [B64.num_value B64.xreal_lt].
    destruct (Qltb (inject_Z 60) v) eqn:Hlo.
    + rewrite Hint. split; [reflexivity|].
      rewrite Hc. unfold clamp. lia.
    + cbn [B64.int_of_num]. split; [reflexivity | lia].
  - unfold B64.py_max, B64.num_lt. cbn [B64.num_value B64.xreal_lt].
    change (Qltb (inject_Z 60) (inject_Z 120)) with true.
    cbn [B64.int_of_num]. split; [reflexivity | lia].
Qed.

Lemma b64_int_of_float_spec (x : B64.float) :
  if B64.is_finite x
  then exists z, B64.int_of_float x = B64.Ok z
  else B64.int_of_float x = B64.Raise B64.OverflowError
       \/ B64.int_of_float x = B64.Raise B64.ValueError.
Proof. destruct x; cbn; eauto. Qed.

End Binary64Numbers.

Section Binary64State.
Variable self : B64.State.

Lemma b64_for_each_approach_at body (a : Approach) :
  B64.for_each_approach body self a = body a (self a).
Proof. destruct a; reflexivity. Qed.

Lemma b64_update_ema_at (raw_scores : Approach -> B64.float) (a : Approach) :
  B64._update_ema self raw_scores a = B64.ema_step (raw_scores a) (self a).
Proof. apply b64_for_each_approach_at. Qed.

Lemma b64_preempt_streaks_ema (target a : Approach) :
  B64.ema_score (B64.preempt_streaks self target a) = B64.ema_score (self a).
Proof.
  unfold B64.preempt_streaks. rewrite b64_for_each_approach_at.
  destruct (decide (a = target)); reflexivity.
Qed.

Lemma b64_update_streaks_ema (green_splits : gmap Approach Z) (a : Approach) :
  B64.ema_score (B64.update_streaks self green_splits a)
  = B64.ema_score (self a).
Proof.
  unfold B64.update_streaks. rewrite b64_for_each_approach_at.
  destruct (0 <? default 0 (green_splits !! a)); reflexivity.
Qed.

Lemma b64_clamp_streaks_ema (a : Approach) :
  B64.ema_score (B64.clamp_streaks self a) = B64.ema_score (self a).
Proof.
  unfold B64.clamp_streaks. rewrite b64_for_each_approach_at.
  destruct (FAIRNESS_MAX_SKIP <? B64.skip_streak (self a)); reflexivity.
Qed.

End Binary64State.

Section Binary64Split.
Variable green_budget : Z.
Variable total : B64.float.
Hypothesis Htotal : B64.is_zero total = false.

Lemma b64_share_of_spec (s : B64.float) :
  B64.share_of green_budget total s
  = if B64.fits green_budget
    then B64.int_of_float
           (B64.fmul (B64.float_of_Z green_budget)
                     (SFdiv B64.prec B64.emax (B64.float_max B64.zero s)
                            total))
    else B64.Raise B64.OverflowError.
Proof.
  unfold B64.share_of, B64.fdiv. rewrite Htotal. cbn [mbind B64.Result_bind].
  rewrite b64_float_of_int_spec. destruct (B64.fits green_budget); reflexivity.
Qed.

Lemma b64_share_of_raises (s : B64.float) (e : B64.PyError) :
  B64.share_of green_budget total s = B64.Raise e ->
  e = B64.OverflowError \/ e = B64.ValueError.
Proof.
  rewrite b64_share_of_spec. destruct (B64.fits green_budget).
  - match goal with |- B64.int_of_float ?x = _ -> _ =>
      pose proof (b64_int_of_float_spec x) as Hx;
      destruct (B64.is_finite x)
    end.
    + destruct Hx as [z ->]. discriminate.
    + destruct Hx as [-> | ->]; intros H; injection H as <-; auto.
  - intros H; injection H as <-; auto.
Qed.

Lemma b64_shares_of_raises (scores : list (Approach * B64.float))
    (e : B64.PyError) :
  B64.shares_of green_budget total scores = B64.Raise e ->
  e = B64.OverflowError \/ e = B64.ValueError.
Proof.
  induction scores as [|p rest IH]; cbn [B64.shares_of]; [discriminate|].
  destruct (B64.share_of green_budget total p.2) as [v|e1] eqn:Hv;
    cbn [mbind B64.Result_bind].
  - destruct (B64.shares_of green_budget total rest) as [tail|e2];
      cbn [mbind B64.Result_bind]; [discriminate|].
    intros H; injection H as <-. apply IH. reflexivity.
  - intros H; injection H as <-. eapply b64_share_of_raises, Hv.
Qed.

Lemma b64_shares_of_keys (scores : list (Approach * B64.float))
    (shares : list (Approach * Z)) :
  B64.shares_of green_budget total scores = B64.Ok shares ->
  shares.*1 = scores.*1.
Proof.
  revert shares. induction scores as [|p rest IH]; intros shares;
    cbn [B64.shares_of].
  - intros H; injection H as <-. reflexivity.
  - destruct (B64.share_of green_budget total p.2) as [v|e1];
      cbn [mbind B64.Result_bind]; [|discriminate].
    destruct (B64.shares_of green_budget total rest) as [tail|e2];
      cbn [mbind B64.Result_bind]; [|discriminate].
    intros H; injection H as <-. cbn. f_equal. apply IH. reflexivity.
Qed.

(** The comprehension returns exactly when the budget converts and every
    product is finite. *)
Lemma b64_shares_of_returns (scores : list (Approach * B64.float)) :
  scores <> [] ->
  (exists shares, B64.shares_of green_budget total scores = B64.Ok shares)
  <-> B64.fits green_budget = true
      /\ Forall (fun x => B64.is_finite x = true)
                (B64.products green_budget total scores).
Proof.
  intros Hne. split.
  - intros [shares Hs]. revert shares Hs Hne.
    induction scores as [|p rest IH]; intros shares Hs Hne; [done|].
    cbn [B64.shares_of] in Hs. rewrite b64_share_of_spec in Hs.
    destruct (B64.fits green_budget) eqn:Hfit; [|discriminate].
    split; [reflexivity|].
    unfold B64.products. cbn [map].
    match type of Hs with context [B64.int_of_float ?x] =>
      pose proof (b64_int_of_float_spec x) as Hx;
      destruct (B64.is_finite x) eqn:Hfin
    end.
    2:{ destruct Hx as [Hx | Hx]; rewrite Hx in Hs; discriminate. }
    destruct Hx as [z Hz]. rewrite Hz in Hs. cbn [mbind B64.Result_bind] in Hs.
    constructor; [exact Hfin|].
    destruct rest as [|q rest']; [constructor|].
    destruct (B64.shares_of green_budget total (q :: rest')) as [tail|e2]
      eqn:Htail; [|discriminate].
    apply (IH tail eq_refl). discriminate.
  - intros [Hfit Hall]. clear Hne.
    induction scores as [|p rest IH]; [exists []; reflexivity|].
    unfold B64.products in Hall. cbn [map] in Hall.
    apply Forall_cons in Hall. destruct Hall as [Hfin Hall].
    destruct (IH Hall) as [tail Htail].
    cbn [B64.shares_of]. rewrite b64_share_of_spec, Hfit, Htail.
    match goal with |- context [B64.int_of_float ?x] =>
      pose proof (b64_int_of_float_spec x) as Hx
    end.
    rewrite Hfin in Hx. destruct Hx as [z ->].
    cbn [mbind B64.Result_bind]. eauto.
Qed.

End Binary64Split.

Section Binary64Normalize.
Variable rule : B64.SumRule.
Variable scores : list (Approach * B64.float).
Variable green_budget : Z.

Lemma b64_clamped_keys (shares : list (Approach * Z)) (a : Approach) :
  is_Some ((list_to_map (map (fun p => (p.1, clamp_green p.2)) shares)
            : gmap Approach Z) !! a)
  <-> a ∈ shares.*1.
Proof.
  rewrite <- not_eq_None_Some, <- not_elem_of_list_to_map.
  rewrite <- list_fmap_compose.
  destruct (decide (a ∈ shares.*1)); tauto.
Qed.

Lemma b64_equal_share_keys (v : Z) (a : Approach) :
  is_Some ((list_to_map (map (fun p => (p.1, v)) scores)
            : gmap Approach Z) !! a)
  <-> a ∈ scores.*1.
Proof.
  rewrite <- not_eq_None_Some, <- not_elem_of_list_to_map.
  rewrite <- list_fmap_compose.
  destruct (decide (a ∈ scores.*1)); tauto.
Qed.

Lemma b64_sorted_keys before (a : Approach) :
  a ∈ map fst (sorted_by before snd scores) <-> a ∈ scores.*1.
Proof.
  assert (Hp : map fst (sorted_by before snd scores) ≡ₚ scores.*1)
    by (apply fmap_Permutation, sorted_by_perm).
  rewrite Hp. reflexivity.
Qed.

(** Once the shares are there the rest is integer work and returns. *)
Lemma b64_proportional_split_spec total :
  match B64.proportional_split scores green_budget total with
  | B64.Ok (raw, diff, i) =>
      (exists shares,
         B64.shares_of green_budget total scores = B64.Ok shares)
      /\ sum_values raw + diff = green_budget
      /\ in_bounds raw
      /\ (forall a, is_Some (raw !! a) <-> a ∈ scores.*1)
      /\ (i <= length scores * 8)%nat
      /\ (diff = 0 \/ (length scores * 8 <= i)%nat)
  | B64.Raise e =>
      B64.shares_of green_budget total scores = B64.Raise e
  end.
Proof.
  unfold B64.proportional_split.
  destruct (B64.shares_of green_budget total scores) as [shares|e] eqn:Hs;
    cbn [mbind B64.Result_bind]; [|reflexivity].
  cbv zeta.
  match goal with |- context [sum_values ?m] => set (raw0 := m) end.
  assert (Hb0 : in_bounds raw0).
  { intros a v Hv. apply elem_of_list_to_map_2 in Hv.
    apply list_elem_of_fmap in Hv. destruct Hv as [p [Hp _]].
    simplify_eq. apply clamp_green_bounds. }
  assert (Hk0 : forall a, is_Some (raw0 !! a) <-> a ∈ scores.*1).
  { intros a. unfold raw0. rewrite b64_clamped_keys.
    rewrite (b64_shares_of_keys _ _ _ _ Hs). reflexivity. }
  destruct (negb (green_budget - sum_values raw0 =? 0)) eqn:Hd.
  - match goal with |- context [repair_loop ?f ?l ?r ?d ?i] =>
      destruct (repair_loop_total l f r d i) as [[[raw diff] i'] Hr]
    end.
    { lia. }
    { intros a Ha. apply Hk0. eapply b64_sorted_keys, Ha. }
    rewrite Hr. apply repair_loop_spec in Hr.
    destruct Hr as (Hsum & Hk & Hb & _ & Hi & Hex).
    rewrite length_map, sorted_by_length in Hi, Hex.
    split; [eauto|]. split; [lia|]. split; [auto|].
    split; [intros a; rewrite (Hk a); apply Hk0|].
    split; [lia | exact Hex].
  - apply negb_false_iff, Z.eqb_eq in Hd.
    split; [eauto|]. split; [lia|]. split; [exact Hb0|].
    split; [exact Hk0|]. split; [lia | left; lia].
Qed.

(** What [_normalize_split] does, case by case. *)
Lemma b64_normalize_split_spec :
  match B64._normalize_split rule scores green_budget with
  | B64.Ok green_splits =>
      scores <> []
      /\ in_bounds green_splits
      /\ (forall a, is_Some (green_splits !! a) <-> a ∈ scores.*1)
      /\ (B64.is_zero (B64.scores_total rule scores) = true
          \/ exists shares,
               B64.shares_of green_budget (B64.scores_total rule scores)
                             scores = B64.Ok shares)
  | B64.Raise e =>
      (e = B64.ZeroDivisionError /\ scores = [])
      \/ (scores <> []
          /\ B64.is_zero (B64.scores_total rule scores) = false
          /\ B64.shares_of green_budget (B64.scores_total rule scores)
                           scores = B64.Raise e
          /\ (e = B64.OverflowError \/ e = B64.ValueError))
  end.
Proof.
  unfold B64._normalize_split. cbv zeta.
  destruct (B64.is_zero (B64.scores_total rule scores)) eqn:Hz.
  - destruct scores as [|p l] eqn:Hscores; cbn [length]; [left; auto|].
    rewrite <- Hscores. split; [congruence|].
    split; [|split; [apply b64_equal_share_keys | left; reflexivity]].
    intros a v Hv. apply elem_of_list_to_map_2 in Hv.
    apply list_elem_of_fmap in Hv. destruct Hv as [q [Hq _]].
    simplify_eq. unfold GREEN_MIN, GREEN_MAX. lia.
  - assert (Hne : scores <> []).
    { intros ->. destruct rule; discriminate. }
    pose proof (b64_proportional_split_spec (B64.scores_total rule scores))
      as Hp.
    destruct (B64.proportional_split scores green_budget
                (B64.scores_total rule scores)) as [[[raw diff] i]|e];
      cbn [mbind B64.Result_bind].
    + destruct Hp as (Hs & _ & Hb & Hk & _). cbn. auto.
    + right. split; [exact Hne|]. split; [reflexivity|].
      split; [exact Hp|]. eapply b64_shares_of_raises; eassumption.
Qed.

End Binary64Normalize.

Section Binary64Paths.
Variable rule : B64.SumRule.

Lemma b64_plan_order_perm (self : B64.State) :
  B64.plan_order self ≡ₚ APPROACHES.
Proof.
  unfold B64.plan_order, B64._apply_fairness, B64.base_order.
  rewrite !sorted_by_perm. reflexivity.
Qed.

Lemma b64_intergreens (self : B64.State) :
  intergreens_of (B64.plan_order self) = 16.
Proof.
  unfold intergreens_of. rewrite (b64_plan_order_perm self). reflexivity.
Qed.

Lemma b64_split_scores_nonempty (self : B64.State) :
  B64.split_scores self <> [].
Proof.
  unfold B64.split_scores. intros H. apply fmap_nil_inv in H.
  pose proof (b64_plan_order_perm self) as Hp. rewrite H in Hp.
  apply Permutation_nil_l in Hp. discriminate.
Qed.

Lemma b64_budget_fits (z : Z) : 44 <= z <= 104 -> B64.fits z = true.
Proof.
  intros Hz.
  assert (Hall : forallb B64.fits (seqZ 44 61) = true) by reflexivity.
  rewrite forallb_forall in Hall. apply Hall.
  apply list_elem_of_In, elem_of_seqZ. lia.
Qed.

Lemma b64_green_budget_fits (self : B64.State) :
  B64.fits (B64.green_budget_of rule self) = true.
Proof.
  apply b64_budget_fits. unfold B64.green_budget_of.
  rewrite b64_intergreens.
  pose proof (proj2 (b64_cycle_of_spec (B64.congestion_of rule self))).
  unfold CYCLE_MIN, CYCLE_MAX in *. lia.
Qed.

Lemma b64_normal_plan_spec (self : B64.State) :
  B64.normal_plan rule self
  = match B64._normalize_split rule (B64.split_scores self)
            (B64.green_budget_of rule self) with
    | B64.Raise e => (self, B64.Raise e)
    | B64.Ok green_splits =>
        (B64.clamp_streaks (B64.update_streaks self green_splits),
         B64.Ok (mkPlan (B64.plan_order self) green_splits
                        (B64.green_budget_of rule self
                         + intergreens_of (B64.plan_order self))
                        "Adaptive split by EMA demand with fairness"))
    end.
Proof.
  unfold B64.normal_plan.
  rewrite (proj1 (b64_cycle_of_spec (B64.congestion_of rule self))).
  reflexivity.
Qed.

(** The normal path returns exactly when the total is zero or every
    proportional share comes from a finite float. *)
Lemma b64_normal_plan_returns (self : B64.State) :
  (exists plan, (B64.normal_plan rule self).2 = B64.Ok plan)
  <-> (B64.is_zero (B64.scores_total rule (B64.split_scores self)) = true
       \/ Forall (fun x => B64.is_finite x = true)
                 (B64.products (B64.green_budget_of rule self)
                    (B64.scores_total rule (B64.split_scores self))
                    (B64.split_scores self))).
Proof.
  rewrite b64_normal_plan_spec.
  pose proof (b64_normalize_split_spec rule (B64.split_scores self)
                (B64.green_budget_of rule self)) as Hn.
  pose proof (b64_split_scores_nonempty self) as Hne.
  pose proof (b64_green_budget_fits self) as Hfit.
  destruct (B64.is_zero (B64.scores_total rule (B64.split_scores self)))
    eqn:Hz.
  - destruct (B64._normalize_split rule (B64.split_scores self)
                (B64.green_budget_of rule self)) as [g|e].
    + split; eauto.
    + destruct Hn as [[_ Hnil]|(_ & Hz' & _)]; [contradiction|discriminate].
  - pose proof (b64_shares_of_returns (B64.green_budget_of rule self)
                  _ Hz (B64.split_scores self) Hne) as Hr.
    destruct (B64._normalize_split rule (B64.split_scores self)
                (B64.green_budget_of rule self)) as [g|e].
    + destruct Hn as (_ & _ & _ & [Hz'|Hs]); [discriminate|].
      split; [intros _; right; apply Hr, Hs | eauto].
    + destruct Hn as [[_ Hnil]|(_ & _ & Hs & _)]; [contradiction|].
      split; [intros [plan Hplan]; discriminate|].
      intros [Hz'|Hall]; [discriminate|].
      destruct (proj2 Hr (conj Hfit Hall)) as [shares Hshares]. congruence.
Qed.

Lemma b64_normal_plan_raises (self : B64.State) (e : B64.PyError) :
  (B64.normal_plan rule self).2 = B64.Raise e ->
  e = B64.OverflowError \/ e = B64.ValueError.
Proof.
  rewrite b64_normal_plan_spec.
  pose proof (b64_normalize_split_spec rule (B64.split_scores self)
                (B64.green_budget_of rule self)) as Hn.
  destruct (B64._normalize_split rule (B64.split_scores self)
              (B64.green_budget_of rule self)) as [g|e']; [discriminate|].
  intros H; injection H as <-.
  destruct Hn as [[_ Hnil]|(_ & _ & _ & He)]; [|exact He].
  destruct (b64_split_scores_nonempty self Hnil).
Qed.

Lemma b64_normal_plan_ema (self : B64.State) (a : Approach) :
  B64.ema_score ((B64.normal_plan rule self).1 a) = B64.ema_score (self a).
Proof.
  rewrite b64_normal_plan_spec.
  destruct (B64._normalize_split rule (B64.split_scores self)
              (B64.green_budget_of rule self)) as [g|e]; [|reflexivity].
  cbn [fst]. rewrite b64_clamp_streaks_ema, b64_update_streaks_ema.
  reflexivity.
Qed.

Lemma b64_preempt_green_returns (score : B64.float) :
  (exists g, B64.preempt_green score = B64.Ok g)
  <-> B64.is_finite (B64.fadd (B64.floordiv2 score)
                              (B64.float_of_Z GREEN_MIN)) = true.
Proof.
  unfold B64.preempt_green.
  match goal with |- context [B64.int_of_float ?x] =>
    pose proof (b64_int_of_float_spec x) as Hx;
    destruct (B64.is_finite x)
  end.
  - destruct Hx as [z ->]. cbn. split; eauto.
  - split; [|discriminate].
    intros [g Hg]. destruct Hx as [Hx|Hx]; rewrite Hx in Hg; discriminate.
Qed.

Lemma b64_preempt_green_raises (score : B64.float) (e : B64.PyError) :
  B64.preempt_green score = B64.Raise e ->
  e = B64.OverflowError \/ e = B64.ValueError.
Proof.
  unfold B64.preempt_green.
  match goal with |- context [B64.int_of_float ?x] =>
    pose proof (b64_int_of_float_spec x) as Hx;
    destruct (B64.is_finite x)
  end.
  - destruct Hx as [z ->]. discriminate.
  - destruct Hx as [-> | ->]; intros H; injection H as <-; auto.
Qed.

Lemma b64_fit_scores (snapshot : gmap string Counts) :
  (forall a, B64.counts_fit (snapshot_get snapshot a) = true) ->
  exists raw_scores,
    B64.raw_scores_of snapshot = B64.Ok raw_scores
    /\ forall a, B64._score (snapshot_get snapshot a) = B64.Ok (raw_scores a).
Proof.
  intros Hfit. pose proof (b64_raw_scores_spec snapshot) as Hraw.
  destruct (B64.raw_scores_of snapshot) as [raw_scores|e]; [eauto|].
  destruct Hraw as [_ [a Ha]]. rewrite b64_score_spec, Hfit in Ha.
  discriminate.
Qed.

Lemma b64_unfit_scores (snapshot : gmap string Counts) :
  (exists a, B64.counts_fit (snapshot_get snapshot a) = false) ->
  B64.raw_scores_of snapshot = B64.Raise B64.OverflowError.
Proof.
  intros [a Ha]. pose proof (b64_raw_scores_spec snapshot) as Hraw.
  destruct (B64.raw_scores_of snapshot) as [raw_scores|e].
  - specialize (Hraw a). rewrite b64_score_spec, Ha in Hraw. discriminate.
  - destruct Hraw as [-> _]. reflexivity.
Qed.

End Binary64Paths.

(** ** Smoothing, in binary64 *)

Lemma b64_compute_plan_ema (rule : B64.SumRule) (self : B64.State)
    (snapshot : gmap string Counts) (raw_scores : Approach -> B64.float)
    (a : Approach) :
  B64.raw_scores_of snapshot = B64.Ok raw_scores ->
  B64.ema_score ((B64.compute_plan rule self snapshot).1 a)
  = B64.ema_score (B64.ema_step (raw_scores a) (self a)).
Proof.
  intros Hraw. unfold B64.compute_plan. rewrite Hraw. cbv zeta.
  destruct (em_approaches_of snapshot) as [|a0 rest].
  - rewrite b64_normal_plan_ema, b64_update_ema_at. reflexivity.
  - unfold B64.preempt_plan. cbn [fst].
    rewrite b64_preempt_streaks_ema, b64_update_ema_at. reflexivity.
Qed.

(** C5 (amended). When every count of the snapshot converts to a float, one
    call of [compute_plan] leaves, for every configured approach, the
    stored smoothed score [ALPHA_EMA * raw + (1 - ALPHA_EMA) * previous]
    computed in binary64, each operation rounded, where [raw] is the float
    [_score] gives for the counts of that approach; this holds on the
    preemption path, on the normal path, and when the call raises after the
    smoothing.  When a count does not convert, the call raises
    [OverflowError] and leaves the state as it was. *)
Theorem C5_ema_update_binary64 (rule : B64.SumRule) (self : B64.State)
    (snapshot : gmap string Counts) :
  ((forall a, B64.counts_fit (snapshot_get snapshot a) = true) ->
   forall a, exists raw,
     B64._score (snapshot_get snapshot a) = B64.Ok raw
     /\ B64.ema_score ((B64.compute_plan rule self snapshot).1 a)
        = B64.fadd
            (B64.fmul B64.ALPHA_EMA raw)
            (B64.fmul (B64.fsub (B64.float_of_Z 1) B64.ALPHA_EMA)
                      (B64.ema_score (self a))))
  /\ ((exists a, B64.counts_fit (snapshot_get snapshot a) = false) ->
      B64.compute_plan rule self snapshot
      = (self, B64.Raise B64.OverflowError)).
Proof.
  split.
  - intros Hfit a.
    destruct (b64_fit_scores snapshot Hfit) as (raw_scores & Hraw & Hscore).
    exists (raw_scores a). split; [apply Hscore|].
    rewrite (b64_compute_plan_ema rule self snapshot raw_scores a Hraw).
    reflexivity.
  - intros Hunfit. unfold B64.compute_plan.
    rewrite (b64_unfit_scores snapshot Hunfit). reflexivity.
Qed.

(** C5, the claim as stated fails: with [10 ** 400] cars on the north
    approach the call raises in [_score], before the smoothing, and the
    stored score of that approach stays 0.0, where the claim has it become
    half the weighted score of the counts. *)
Lemma C5_counterexample_huge_count :
  B64._score (snapshot_get B64.snapshot_huge North)
  = B64.Raise B64.OverflowError
  /\ B64.compute_plan B64.LeftToRight B64.init_state B64.snapshot_huge
     = (B64.init_state, B64.Raise B64.OverflowError)
  /\ B64.compute_plan B64.Compensated B64.init_state B64.snapshot_huge
     = (B64.init_state, B64.Raise B64.OverflowError)
  /\ ~ (B64.float_value
          (B64.ema_score
             ((B64.compute_plan B64.LeftToRight B64.init_state
                 B64.snapshot_huge).1 North))
        == ALPHA_EMA * _score (snapshot_get B64.snapshot_huge North)
           + (1 - ALPHA_EMA) * B64.float_value
                                 (B64.ema_score (B64.init_state North)))%Q.
Proof.
  split; [vm_compute; reflexivity|].
  split; [vm_compute; reflexivity|].
  split; [vm_compute; reflexivity|].
  intros H. vm_compute in H. discriminate.
Qed.

(** The smoothing survives a call that raises later: these counts convert,
    the score overflows to infinity and the split raises on a NaN share. *)
Example smoothing_kept_when_split_raises :
  (B64.compute_plan B64.LeftToRight B64.init_state
     B64.snapshot_overflowing).2
  = B64.Raise B64.ValueError
  /\ B64.ema_score
       ((B64.compute_plan B64.LeftToRight B64.init_state
           B64.snapshot_overflowing).1 North)
     = S754_infinity false.
Proof. split; vm_compute; reflexivity. Qed.

(** ** Cycle length, in binary64 *)

Lemma b64_congestion_ext (rule : B64.SumRule) (s1 s2 : B64.State) :
  (forall a, B64.ema_score (s1 a) = B64.ema_score (s2 a)) ->
  B64.congestion_of rule s1 = B64.congestion_of rule s2.
Proof.
  intros H. unfold B64.congestion_of, APPROACHES. cbn [map].
  rewrite !H. reflexivity.
Qed.

(** C7 (amended). On the normal path, when the call returns a plan, the
    cycle computed from the congestion, the float sum of the smoothed
    scores, is [clamp(CYCLE_MIN, CYCLE_MAX, floor(x))] where [x] is the
    binary64 value of [CYCLE_MIN + congestion / 50] (a NaN and plus
    infinity give [CYCLE_MAX], minus infinity gives [CYCLE_MIN]); the
    [cycle_time] of the plan, recomputed from the green budget and the
    intergreens, is that same value. *)
Theorem C7_cycle_length_binary64 (rule : B64.SumRule) (self self' : B64.State)
    (snapshot : gmap string Counts) (plan : Plan) :
  no_emergency snapshot ->
  B64.compute_plan rule self snapshot = (self', B64.Ok plan) ->
  let congestion :=
    B64.py_sum rule (map (fun a => B64.ema_score (self' a)) APPROACHES) in
  B64.cycle_of congestion = B64.Ok (cycle_time plan)
  /\ cycle_time plan
     = B64.clamped_floor
         (B64.fadd (B64.float_of_Z CYCLE_MIN)
                   (SFdiv B64.prec B64.emax congestion (B64.float_of_Z 50)))
  /\ CYCLE_MIN <= cycle_time plan <= CYCLE_MAX.
Proof.
  intros Hno Hplan. cbv zeta.
  fold (B64.congestion_of rule self').
  assert (Hem : em_approaches_of snapshot = []) by (apply no_emergency_em, Hno).
  unfold B64.compute_plan in Hplan. rewrite Hem in Hplan.
  destruct (B64.raw_scores_of snapshot) as [raw_scores|e];
    [|discriminate].
  cbv zeta in Hplan.
  set (s := B64._update_ema self raw_scores) in *.
  assert (Hcong : B64.congestion_of rule self' = B64.congestion_of rule s).
  { apply b64_congestion_ext. intros a.
    rewrite <- (b64_normal_plan_ema rule s a), Hplan. reflexivity. }
  rewrite Hcong.
  pose proof (b64_cycle_of_spec (B64.congestion_of rule s)) as [Hc Hrange].
  fold (B64.cycle_estimate (B64.congestion_of rule s)).
  rewrite b64_normal_plan_spec in Hplan.
  destruct (B64._normalize_split rule (B64.split_scores s)
              (B64.green_budget_of rule s)) as [g|e]; [|discriminate].
  injection Hplan as _ <-. cbn [cycle_time].
  assert (Hct : B64.green_budget_of rule s + intergreens_of (B64.plan_order s)
                = B64.clamped_floor
                    (B64.cycle_estimate (B64.congestion_of rule s))).
  { unfold B64.green_budget_of. unfold CYCLE_MIN in *. lia. }
  rewrite Hct. auto.
Qed.

Lemma C7_cycle_length_binary64_witness :
  no_emergency snapshot_busy
  /\ exists self' plan,
       B64.compute_plan B64.LeftToRight B64.init_state snapshot_busy
       = (self', B64.Ok plan)
       /\ let congestion :=
            B64.py_sum B64.LeftToRight
              (map (fun a => B64.ema_score (self' a)) APPROACHES) in
          B64.cycle_of congestion = B64.Ok (cycle_time plan)
          /\ cycle_time plan
             = B64.clamped_floor
                 (B64.fadd (B64.float_of_Z CYCLE_MIN)
                           (SFdiv B64.prec B64.emax congestion
                                  (B64.float_of_Z 50)))
          /\ CYCLE_MIN <= cycle_time plan <= CYCLE_MAX.
Proof.
  assert (Hno : no_emergency snapshot_busy)
    by (intros a; destruct a; reflexivity).
  split; [exact Hno|].
  assert (Hrun : exists self' plan,
            B64.compute_plan B64.LeftToRight B64.init_state snapshot_busy
            = (self', B64.Ok plan))
    by (vm_compute; eauto).
  destruct Hrun as (self' & plan & Hrun). exists self', plan.
  split; [exact Hrun|].
  exact (C7_cycle_length_binary64 B64.LeftToRight B64.init_state self'
           snapshot_busy plan Hno Hrun).
Defined.

(** C7, the claim as stated fails: on the 48th of 48 calls with fifty cars
    on the north approach the congestion is [50 - 50 * 2 ** -48], the
    binary64 sum [60 + congestion / 50] rounds up to 61.0 and the plan has
    [cycle_time] 61, where [CYCLE_MIN + floor(congestion / 50)] is 60, the
    quotient taken exactly or in binary64. *)
Lemma C7_counterexample_rounded_sum :
  Forall
    (fun rule =>
       let r := B64.run rule B64.init_state
                        (replicate 48 B64.snapshot_fifty) in
       let congestion := B64.congestion_of rule r.1 in
       no_emergency B64.snapshot_fifty
       /\ (exists plan,
             last r.2 = Some (B64.Ok plan) /\ cycle_time plan = 61)
       /\ clamp CYCLE_MIN CYCLE_MAX
            (CYCLE_MIN + Qfloor (B64.float_value congestion / 50)) = 60
       /\ clamp CYCLE_MIN CYCLE_MAX
            (CYCLE_MIN
             + Qfloor (B64.float_value
                         (SFdiv B64.prec B64.emax congestion
                                (B64.float_of_Z 50)))) = 60)
    [B64.LeftToRight; B64.Compensated].
Proof.
  repeat constructor;
    try (intros a; destruct a; reflexivity);
    try (vm_compute; reflexivity);
    (eexists; split; [vm_compute; reflexivity | reflexivity]).
Qed.

(** ** Which calls return, in binary64 *)

Lemma b64_compute_plan_outcome (rule : B64.SumRule) (self : B64.State)
    (snapshot : gmap string Counts) (e : B64.PyError) :
  (B64.compute_plan rule self snapshot).2 = B64.Raise e ->
  e = B64.OverflowError \/ e = B64.ValueError.
Proof.
  unfold B64.compute_plan.
  pose proof (b64_raw_scores_spec snapshot) as Hraw.
  destruct (B64.raw_scores_of snapshot) as [raw_scores|e1].
  - cbv zeta. destruct (em_approaches_of snapshot) as [|a0 rest].
    + apply b64_normal_plan_raises.
    + unfold B64.preempt_plan. cbn [snd].
      match goal with |- context [B64.preempt_green ?x] =>
        pose proof (b64_preempt_green_raises x) as Hg;
        destruct (B64.preempt_green x) as [g|e2]
      end; [discriminate|].
      cbn. intros H; injection H as <-. apply Hg. reflexivity.
  - destruct Hraw as [-> _]. cbn. intros H; injection H as <-. auto.
Qed.

Lemma b64_compute_plan_returns (rule : B64.SumRule) (self : B64.State)
    (snapshot : gmap string Counts) :
  (forall a, B64.counts_fit (snapshot_get snapshot a) = true) ->
  (exists plan, (B64.compute_plan rule self snapshot).2 = B64.Ok plan)
  <-> Forall (fun x => B64.is_finite x = true)
             (B64.int_arguments rule self snapshot).
Proof.
  intros Hfit.
  destruct (b64_fit_scores snapshot Hfit) as (raw_scores & Hraw & _).
  unfold B64.compute_plan, B64.int_arguments, B64.smoothed.
  rewrite Hraw. cbv zeta.
  destruct (em_approaches_of snapshot) as [|a0 rest].
  - rewrite b64_normal_plan_returns.
    destruct (B64.is_zero _); [|split; [intros [?|?]; [discriminate|assumption] | auto]].
    split; [constructor | auto].
  - unfold B64.preempt_plan. cbn [snd].
    rewrite Forall_singleton, <- b64_preempt_green_returns.
    match goal with |- context [B64.preempt_green ?x] =>
      destruct (B64.preempt_green x) as [g|e]
    end; cbn.
    + split; eauto.
    + split; intros [? ?]; discriminate.
Qed.

(** C8 (amended). [compute_plan] ends on every state and snapshot, with a
    plan or with an exception of a conversion between [int] and [float]:
    [OverflowError] or [ValueError], nothing else.  When a count does not
    convert to a float it raises [OverflowError] and leaves the state as it
    was; when every count converts it returns a plan exactly when every
    float it hands to [int()] is finite.  The proportional branch of
    [_normalize_split], when it returns, has made at most
    [8 * len(scores)] iterations of its repair loop, and ends with [diff]
    at zero or with the iterations used up. *)
Theorem C8_returns_unless_conversion_fails (rule : B64.SumRule)
    (self : B64.State) (snapshot : gmap string Counts) :
  let r := B64.compute_plan rule self snapshot in
  ((exists plan, r.2 = B64.Ok plan)
   \/ r.2 = B64.Raise B64.OverflowError
   \/ r.2 = B64.Raise B64.ValueError)
  /\ ((exists a, B64.counts_fit (snapshot_get snapshot a) = false) ->
      r = (self, B64.Raise B64.OverflowError))
  /\ ((forall a, B64.counts_fit (snapshot_get snapshot a) = true) ->
      ((exists plan, r.2 = B64.Ok plan)
       <-> Forall (fun x => B64.is_finite x = true)
                  (B64.int_arguments rule self snapshot)))
  /\ (forall scores green_budget total raw diff i,
        B64.proportional_split scores green_budget total
        = B64.Ok (raw, diff, i) ->
        (i <= 8 * length scores)%nat
        /\ (diff = 0 \/ i = (8 * length scores)%nat)).
Proof.
  cbv zeta. split; [|split; [|split]].
  - destruct (B64.compute_plan rule self snapshot).2 as [plan|e] eqn:Hr;
      [eauto|].
    destruct (b64_compute_plan_outcome rule self snapshot e Hr) as [-> | ->];
      auto.
  - intros Hunfit. unfold B64.compute_plan.
    rewrite (b64_unfit_scores snapshot Hunfit). reflexivity.
  - apply b64_compute_plan_returns.
  - intros scores green_budget total raw diff i Hp.
    pose proof (b64_proportional_split_spec scores green_budget total) as Hs.
    rewrite Hp in Hs. destruct Hs as (_ & _ & _ & _ & Hi & Hex).
    split; [lia|]. destruct Hex; [left; assumption | right; lia].
Qed.

(** C8, the claim as stated fails: a snapshot with [10 ** 400] cars, and
    one whose counts convert but whose score overflows, make the call
    raise. *)
Lemma C8_counterexample_raises :
  B64.compute_plan B64.LeftToRight B64.init_state B64.snapshot_huge
  = (B64.init_state, B64.Raise B64.OverflowError)
  /\ B64.compute_plan B64.Compensated B64.init_state B64.snapshot_huge
     = (B64.init_state, B64.Raise B64.OverflowError)
  /\ (B64.compute_plan B64.LeftToRight B64.init_state
        B64.snapshot_overflowing).2
     = B64.Raise B64.ValueError
  /\ (B64.compute_plan B64.Compensated B64.init_state
        B64.snapshot_overflowing).2
     = B64.Raise B64.ValueError.
Proof. repeat split; vm_compute; reflexivity. Qed.

(** On ordinary counts the call returns. *)
Example busy_snapshot_returns :
  (fun r => match r with
            | B64.Ok plan => Some (phase_order plan, cycle_time plan)
            | B64.Raise _ => None
            end)
    (B64.compute_plan B64.LeftToRight B64.init_state snapshot_busy).2
  = Some ([East; South; North; West], 61).
Proof. vm_compute. reflexivity. Qed.

(** ** [_normalize_split] on arbitrary inputs, in binary64 *)

(** X1. [_normalize_split] raises [ZeroDivisionError] (the division
    [green_budget // len(scores)]) exactly when [scores] is empty; the
    float division by [total] never does, and whatever else it raises is an
    [OverflowError] or a [ValueError] of a conversion. *)
Theorem X1_normalize_split_zero_division_iff_empty (rule : B64.SumRule)
    (scores : list (Approach * B64.float)) (green_budget : Z) :
  (B64._normalize_split rule scores green_budget
   = B64.Raise B64.ZeroDivisionError
   <-> scores = [])
  /\ forall e,
       B64._normalize_split rule scores green_budget = B64.Raise e ->
       e = B64.ZeroDivisionError \/ e = B64.OverflowError
       \/ e = B64.ValueError.
Proof.
  pose proof (b64_normalize_split_spec rule scores green_budget) as Hn.
  split.
  - split.
    + intros H. rewrite H in Hn.
      destruct Hn as [[_ Hnil]|(_ & _ & _ & [He|He])];
        [exact Hnil | discriminate | discriminate].
    + intros ->. destruct rule; reflexivity.
  - intros e H. rewrite H in Hn.
    destruct Hn as [[-> _]|(_ & _ & _ & [->| ->])]; auto.
Qed.

(** X2. Whenever [_normalize_split] returns, negative budgets included, its
    dictionary has exactly the keys of [scores] and every green lies within
    [GREEN_MIN] and [GREEN_MAX]: the limits hold in the equal-share branch
    as in the proportional one, whatever the floats were. *)
Theorem X2_normalize_split_keys_and_limits (rule : B64.SumRule)
    (scores : list (Approach * B64.float)) (green_budget : Z)
    (green_splits : gmap Approach Z) :
  B64._normalize_split rule scores green_budget = B64.Ok green_splits ->
  (forall a, is_Some (green_splits !! a) <-> a ∈ scores.*1)
  /\ (forall a green,
        green_splits !! a = Some green -> GREEN_MIN <= green <= GREEN_MAX).
Proof.
  intros H.
  pose proof (b64_normalize_split_spec rule scores green_budget) as Hn.
  rewrite H in Hn. destruct Hn as (_ & Hb & Hk & _).
  split; [exact Hk|]. intros a green Hgreen. exact (Hb a green Hgreen).
Qed.

Lemma X2_normalize_split_keys_and_limits_witness :
  exists green_splits,
    B64._normalize_split B64.LeftToRight B64.scores_mixed (-5)
    = B64.Ok green_splits
    /\ (forall a, is_Some (green_splits !! a) <-> a ∈ B64.scores_mixed.*1)
    /\ (forall a green,
          green_splits !! a = Some green -> GREEN_MIN <= green <= GREEN_MAX).
Proof.
  assert (Hrun : exists green_splits,
            B64._normalize_split B64.LeftToRight B64.scores_mixed (-5)
            = B64.Ok green_splits)
    by (vm_compute; eauto).
  destruct Hrun as [green_splits Hrun]. exists green_splits.
  split; [exact Hrun|].
  exact (X2_normalize_split_keys_and_limits B64.LeftToRight
           B64.scores_mixed (-5) green_splits Hrun).
Defined.

(** The rounding of one share: [44 * (7.5 / 11.0)] is just below 30 in
    binary64 and truncates to 29, and a score of infinity makes the share a
    NaN. *)
Example share_rounds_down :
  B64.share_of 44 (B64.float_of_Z 11)
    (SFdiv B64.prec B64.emax (B64.float_of_Z 15) (B64.float_of_Z 2))
  = B64.Ok 29
  /\ B64._normalize_split B64.LeftToRight [(North, S754_infinity false)] 44
     = B64.Raise B64.ValueError.
Proof. split; vm_compute; reflexivity. Qed.
